(** * tema3: a castle of rooms (prototype, factory method, singleton)

    A shallow embedding of [src/tema3.cpp].  The C++ program keeps its
    objects on the free store and reaches them through [std::unique_ptr];
    it writes to [std::cout] and reads [int]s from [std::cin].  All of this
    is made explicit here: a world holds the heap, the static member
    [Rege::instanta], the text written so far and the input stream, and
    every member function is a computation over that world. *)

From Stdlib Require Import ZArith String Ascii.
From stdpp Require Import gmap strings list fin_maps.

Open Scope Z_scope.

(** ** Objects and pointers *)

(** Addresses of the free store. *)
Definition loc := positive.

(** A [std::unique_ptr<T>]: either [nullptr] or the address it owns. *)
Definition unique_ptr := option loc.
Definition nullptr : unique_ptr := None.

(** The two concrete classes behind the interface [Clona]
    ([CameraTron] and [Temnita], both through the template [Camera]);
    neither has a data member. *)
Inductive Clona : Type :=
  | CameraTron
  | Temnita.

(** [class Castel]: the vector [camere] of owning pointers. *)
Record Castel : Type := mkCastel { camere : list unique_ptr }.

(** What an address of the free store can hold: a room, or the [Rege]
    with its data member [castel]. *)
Inductive object : Type :=
  | ORoom (c : Clona)
  | ORege (castel : Castel).

(** ** Streams *)

(** [std::cin] as the program uses it: the whitespace-separated integer
    numerals still to be read, and the stream's [failbit]. *)
Record istream : Type := mkIstream {
  tokens : list Z;
  failbit : bool
}.

(** ** The world *)

Record World : Type := mkWorld {
  heap : gmap loc object;
  instanta : unique_ptr;      (* [Rege::instanta] *)
  cout : string;              (* everything written to [std::cout] *)
  cin : istream
}.

(** ** Computations

    A member function either returns a value in a new world or leaves the
    defined behaviour of C++ (a null or dangling pointer is dereferenced).
    The menu loop, which need not terminate, is run with fuel and may run
    out of it. *)

Inductive fault : Type :=
  | UndefinedBehaviour
  | OutOfFuel.

Inductive outcome (A : Type) : Type :=
  | Ret (a : A) (w : World)
  | Fault (e : fault).
Arguments Ret {A} a w.
Arguments Fault {A} e.

Definition M (A : Type) : Type := World -> outcome A.

Definition ret {A} (a : A) : M A := fun w => Ret a w.

Definition bind {A B} (m : M A) (k : A -> M B) : M B :=
  fun w => match m w with
           | Ret a w' => k a w'
           | Fault e => Fault e
           end.

Definition fail {A} (e : fault) : M A := fun _ => Fault e.

Declare Scope cpp_scope.
Delimit Scope cpp_scope with cpp.
Notation "x <- m ;; k" := (bind m (fun x => k))
  (at level 100, m at next level, right associativity) : cpp_scope.
Notation "m ;; k" := (bind m (fun _ => k))
  (at level 100, right associativity) : cpp_scope.
Open Scope cpp_scope.

(** *** Primitive effects *)

Definition nl : string := String "010"%char EmptyString.

(** [std::cout << s]. *)
Definition cout_put (s : string) : M unit :=
  fun w => Ret tt (mkWorld (heap w) (instanta w) (cout w +:+ s) (cin w)).

(** [new T(...)] : the object is placed at an address not in use. *)
Definition new (o : object) : M loc :=
  fun w => let l := fresh (dom (heap w)) in
           Ret l (mkWorld (<[l := o]> (heap w)) (instanta w) (cout w) (cin w)).

(** [std::make_unique<T>(...)]. *)
Definition make_unique (o : object) : M unique_ptr :=
  l <- new o ;; ret (Some l).

(** Destruction of an owning pointer: [delete] of what it owns, if anything. *)
Definition discard (p : unique_ptr) : M unit :=
  fun w => match p with
           | None => Ret tt w
           | Some l => Ret tt (mkWorld (delete l (heap w)) (instanta w) (cout w) (cin w))
           end.

(** Reading through a pointer. *)
Definition deref (p : unique_ptr) : M object :=
  fun w => match p with
           | None => Fault UndefinedBehaviour
           | Some l => match heap w !! l with
                       | Some o => Ret o w
                       | None => Fault UndefinedBehaviour
                       end
           end.

Definition store (l : loc) (o : object) : M unit :=
  fun w => Ret tt (mkWorld (<[l := o]> (heap w)) (instanta w) (cout w) (cin w)).

Definition get_instanta : M unique_ptr := fun w => Ret (instanta w) w.

Definition set_instanta (p : unique_ptr) : M unit :=
  fun w => Ret tt (mkWorld (heap w) p (cout w) (cin w)).

(** *** [std::cin >> optiune] for an [int]

    With the stream already failed, or at end of input, nothing is stored
    and [failbit] is set.  A numeral outside the range of [int] stores the
    nearest bound and sets [failbit]. *)

Definition INT_MIN : Z := - 2 ^ 31.
Definition INT_MAX : Z := 2 ^ 31 - 1.

Definition cin_get_int (old : Z) : M Z :=
  fun w =>
    let i := cin w in
    if failbit i then Ret old w
    else match tokens i with
         | [] => Ret old (mkWorld (heap w) (instanta w) (cout w) (mkIstream [] true))
         | z :: rest =>
             if z <? INT_MIN then
               Ret INT_MIN (mkWorld (heap w) (instanta w) (cout w) (mkIstream rest true))
             else if INT_MAX <? z then
               Ret INT_MAX (mkWorld (heap w) (instanta w) (cout w) (mkIstream rest true))
             else
               Ret z (mkWorld (heap w) (instanta w) (cout w) (mkIstream rest false))
         end.

(** ** The room classes *)

(** [CameraTron::info] and [Temnita::info]. *)
Definition CameraTron_info : M unit := cout_put "camera tronului, ".
Definition Temnita_info : M unit := cout_put "temnita, ".

(** The virtual call [camera->info()]: the final overrider is chosen by
    the dynamic type of the object pointed to. *)
Definition Clona_info (this : unique_ptr) : M unit :=
  o <- deref this ;;
  match o with
  | ORoom CameraTron => CameraTron_info
  | ORoom Temnita => Temnita_info
  | ORege _ => fail UndefinedBehaviour
  end.

(** [Camera<Derivata>::clone]: [make_unique<Derivata>] of a copy of [*this]. *)
Definition Camera_clone (this : unique_ptr) : M unique_ptr :=
  o <- deref this ;;
  match o with
  | ORoom c => make_unique (ORoom c)
  | ORege _ => fail UndefinedBehaviour
  end.

(** ** [class Castel] *)

(** [Castel::adaugaCamera]: [camere.push_back(std::move(camera))]. *)
Definition Castel_adaugaCamera (camera : unique_ptr) (this : Castel) : Castel :=
  mkCastel (camere this ++ [camera]).

(** The range-based [for] of [Castel::info]. *)
Fixpoint for_each_info (cs : list unique_ptr) : M unit :=
  match cs with
  | [] => ret tt
  | camera :: rest => Clona_info camera ;; for_each_info rest
  end.

(** [Castel::info]. *)
Definition Castel_info (this : Castel) : M unit :=
  cout_put "Castelul are: " ;;
  for_each_info (camere this) ;;
  cout_put EmptyString ;; cout_put nl.

(** ** [class CameraFactory] *)

(** [enum TipCamera { CAMERA_TRON, TEMNITA }]: an unscoped enumeration,
    carried as the integer value of the enumerator. *)
Definition TipCamera := Z.
Definition CAMERA_TRON : TipCamera := 0.
Definition TEMNITA : TipCamera := 1.

(** [CameraFactory::creareCamera]; the factory object itself has no state. *)
Definition creareCamera (tip : TipCamera) : M unique_ptr :=
  if tip =? CAMERA_TRON then make_unique (ORoom CameraTron)
  else if tip =? TEMNITA then make_unique (ORoom Temnita)
  else ret nullptr.

(** ** [class Rege] *)

(** [Rege::getInstance].  [instanta.reset(new Rege())] runs only when
    [instanta] is null, so [reset] has nothing to delete.  The reference
    returned is the address of [*instanta]. *)
Definition Rege_getInstance : M loc :=
  i <- get_instanta ;;
  match i with
  | None => r <- new (ORege (mkCastel [])) ;; set_instanta (Some r)
  | Some _ => ret tt
  end ;;
  i' <- get_instanta ;;
  match i' with
  | Some r => ret r
  | None => fail UndefinedBehaviour
  end.

(** [Rege::adaugaCameraCastel], called through a reference to the [Rege]. *)
Definition Rege_adaugaCameraCastel (this : loc) (camera : unique_ptr) : M unit :=
  o <- deref (Some this) ;;
  match o with
  | ORege castel => store this (ORege (Castel_adaugaCamera camera castel))
  | ORoom _ => fail UndefinedBehaviour
  end.

(** [Rege::infoCastel]. *)
Definition Rege_infoCastel (this : loc) : M unit :=
  o <- deref (Some this) ;;
  match o with
  | ORege castel => Castel_info castel
  | ORoom _ => fail UndefinedBehaviour
  end.

(** ** [main] *)

(** [enum Optiune { ADD_CAMERA=1, ADD_TEMNITA, DESC_CASTEL, IESIRE }]. *)
Definition ADD_CAMERA : Z := 1.
Definition ADD_TEMNITA : Z := 2.
Definition DESC_CASTEL : Z := 3.
Definition IESIRE : Z := 4.

(** The five lines written at the top of every iteration. *)
Definition print_menu : M unit :=
  cout_put "1. Adauga o camera a tronului" ;; cout_put EmptyString ;; cout_put nl ;;
  cout_put "2. Adauga o temnita" ;; cout_put nl ;;
  cout_put "3. Descrie castel" ;; cout_put nl ;;
  cout_put "4. Incheiere operatiune" ;; cout_put nl ;;
  cout_put "Alege o optiune: ".

(** The [switch (optiune)]. *)
Definition dispatch (rege : loc) (optiune : Z) : M unit :=
  if optiune =? ADD_CAMERA then
    camera <- creareCamera CAMERA_TRON ;;
    Rege_adaugaCameraCastel rege camera ;;
    cout_put "Camera tronului adaugata." ;; cout_put nl
  else if optiune =? ADD_TEMNITA then
    camera <- creareCamera TEMNITA ;;
    Rege_adaugaCameraCastel rege camera ;;
    cout_put "Temnita adaugata." ;; cout_put nl
  else if optiune =? DESC_CASTEL then
    Rege_infoCastel rege
  else if optiune =? IESIRE then
    cout_put "Iesire program." ;; cout_put nl
  else
    cout_put "Optiunea nu se afla in meniu." ;; cout_put nl.

(** One pass through the body of the [while]; the value returned is that
    of [optiune] at the end of the body. *)
Definition menu_iteration (rege : loc) (optiune : Z) : M Z :=
  print_menu ;;
  optiune' <- cin_get_int optiune ;;
  dispatch rege optiune' ;;
  ret optiune'.

(** [while (optiune != 4) { ... }], at most [fuel] passes. *)
Fixpoint menu_loop (fuel : nat) (rege : loc) (optiune : Z) : M unit :=
  if optiune =? 4 then ret tt
  else match fuel with
       | O => fail OutOfFuel
       | S fuel' =>
           optiune' <- menu_iteration rege optiune ;;
           menu_loop fuel' rege optiune'
       end.

(** [main]; its value is the exit status of the process. *)
Definition main (fuel : nat) : M Z :=
  rege <- Rege_getInstance ;;
  menu_loop fuel rege 0 ;;
  ret 0.

(** The world at program start: an empty free store, [Rege::instanta]
    initialised to [nullptr], nothing written, the given numerals on the
    standard input. *)
Definition initial_world (input : list Z) : World :=
  mkWorld ∅ nullptr EmptyString (mkIstream input false).

(** ** Observations used in the statements *)

(** The text a room writes when described. *)
Definition fragment (c : Clona) : string :=
  match c with
  | CameraTron => "camera tronului, "
  | Temnita => "temnita, "
  end.

Fixpoint fragments (rs : list Clona) : string :=
  match rs with
  | [] => EmptyString
  | r :: rest => fragment r +:+ fragments rest
  end.

(** The room a pointer leads to, if it leads to one. *)
Definition room_at (w : World) (p : unique_ptr) : option Clona :=
  match p with
  | None => None
  | Some l => match heap w !! l with
              | Some (ORoom c) => Some c
              | _ => None
              end
  end.

(** [camere] lists live rooms of the dynamic types [rs], in this order. *)
Definition holds_rooms (w : World) (this : Castel) (rs : list Clona) : Prop :=
  Forall2 (fun p r => room_at w p = Some r) (camere this) rs.

(** The world [w] after [s] has been written to [std::cout]. *)
Definition written (s : string) (w : World) : World :=
  mkWorld (heap w) (instanta w) (cout w +:+ s) (cin w).

(** The menu as it appears on the terminal. *)
Definition menu_text : string :=
  "1. Adauga o camera a tronului" +:+ nl +:+
  "2. Adauga o temnita" +:+ nl +:+
  "3. Descrie castel" +:+ nl +:+
  "4. Incheiere operatiune" +:+ nl +:+
  "Alege o optiune: ".

(** The rooms a menu choice adds, and the line it is answered with when
    the castle holds the rooms [rs]. *)
Definition rooms_added (optiune : Z) : list Clona :=
  if optiune =? ADD_CAMERA then [CameraTron]
  else if optiune =? ADD_TEMNITA then [Temnita]
  else [].

Definition reply (rs : list Clona) (optiune : Z) : string :=
  if optiune =? ADD_CAMERA then "Camera tronului adaugata." +:+ nl
  else if optiune =? ADD_TEMNITA then "Temnita adaugata." +:+ nl
  else if optiune =? DESC_CASTEL then "Castelul are: " +:+ fragments rs +:+ nl
  else if optiune =? IESIRE then "Iesire program." +:+ nl
  else "Optiunea nu se afla in meniu." +:+ nl.

(** A value of type [int]. *)
Definition is_int (z : Z) : Prop := INT_MIN <= z <= INT_MAX.

(** The first [n] passes of the [while] loop (fewer if it ends earlier);
    the value is that of [optiune] afterwards. *)
Fixpoint menu_passes (n : nat) (rege : loc) (optiune : Z) : M Z :=
  match n with
  | O => ret optiune
  | S n' =>
      if optiune =? 4 then ret optiune
      else optiune' <- menu_iteration rege optiune ;;
           menu_passes n' rege optiune'
  end.

(** [n] calls of [Rege::getInstance] in a row, with the references they
    return. *)
Fixpoint getInstance_times (n : nat) : M (list loc) :=
  match n with
  | O => ret []
  | S n' => r <- Rege_getInstance ;;
            rs <- getInstance_times n' ;;
            ret (r :: rs)
  end.

(** The number of [Rege] objects alive on the free store. *)
Definition is_Rege (o : object) : bool :=
  match o with
  | ORege _ => true
  | ORoom _ => false
  end.

Definition Rege_count (w : World) : nat :=
  size (filter (fun kv : loc * object => is_Rege kv.2 = true) (heap w)).

(** No entry of [camere] is null. *)
Definition no_null (this : Castel) : Prop :=
  Forall (fun p => p <> nullptr) (camere this).

(** ... in whatever [Castel] there is on the free store. *)
Definition camere_no_null (w : World) : Prop :=
  forall l castel, heap w !! l = Some (ORege castel) -> no_null castel.

(** The state the program maintains once the singleton exists: [instanta]
    owns the one [Rege] on the free store, at [rege], and the entries of
    its castle lead to live rooms of the dynamic types [rs]. *)
Definition kingdom (w : World) (rege : loc) (rs : list Clona) : Prop :=
  instanta w = Some rege /\
  (forall l castel, heap w !! l = Some (ORege castel) -> l = rege) /\
  exists castel, heap w !! rege = Some (ORege castel) /\ holds_rooms w castel rs.

(** The same, including the time before the first [getInstance]. *)
Definition realm (w : World) (rs : list Clona) : Prop :=
  match instanta w with
  | None => (forall l castel, heap w !! l <> Some (ORege castel)) /\ rs = []
  | Some rege => kingdom w rege rs
  end.

(** The dynamic types of the entries of the castle owned by the singleton
    ([None] for an entry that leads to no room); empty before the singleton
    exists. *)
Definition castel_rooms (w : World) : list (option Clona) :=
  match instanta w with
  | Some rege =>
      match heap w !! rege with
      | Some (ORege castel) => map (room_at w) (camere castel)
      | _ => []
      end
  | None => []
  end.

(** What the terminal shows for the choices read, one after the other,
    starting from a castle that holds the rooms [rs]: before every choice
    the menu, after it the answer. *)
Fixpoint transcript (rs : list Clona) (choices : list Z) : string :=
  match choices with
  | [] => EmptyString
  | z :: rest =>
      menu_text +:+ reply rs z +:+ transcript (rs ++ rooms_added z) rest
  end.

(** The castle of the [Rege] at [rege] is the one owner of every room on
    the free store: no two entries of [camere] are the same pointer, and
    every room alive is pointed to by an entry. *)
Definition owns_all (w : World) (rege : loc) : Prop :=
  exists castel,
    heap w !! rege = Some (ORege castel) /\
    NoDup (camere castel) /\
    forall l c, heap w !! l = Some (ORoom c) -> Some l ∈ camere castel.

(** ** Any allocator

    [new] above places the object at one particular unused address.  C++
    leaves the address open: the definitions below take the choice as a
    parameter [alloc], which may depend on the whole state, and are
    otherwise the ones above, which they give back for [first_unused]. *)

Definition new_at (alloc : World -> loc) (o : object) : M loc :=
  fun w => let l := alloc w in
           Ret l (mkWorld (<[l := o]> (heap w)) (instanta w) (cout w) (cin w)).

Definition make_unique_at (alloc : World -> loc) (o : object) : M unique_ptr :=
  l <- new_at alloc o ;; ret (Some l).

Definition creareCamera_at (alloc : World -> loc) (tip : TipCamera) : M unique_ptr :=
  if tip =? CAMERA_TRON then make_unique_at alloc (ORoom CameraTron)
  else if tip =? TEMNITA then make_unique_at alloc (ORoom Temnita)
  else ret nullptr.

Definition Rege_getInstance_at (alloc : World -> loc) : M loc :=
  i <- get_instanta ;;
  match i with
  | None => r <- new_at alloc (ORege (mkCastel [])) ;; set_instanta (Some r)
  | Some _ => ret tt
  end ;;
  i' <- get_instanta ;;
  match i' with
  | Some r => ret r
  | None => fail UndefinedBehaviour
  end.

Definition dispatch_at (alloc : World -> loc) (rege : loc) (optiune : Z) : M unit :=
  if optiune =? ADD_CAMERA then
    camera <- creareCamera_at alloc CAMERA_TRON ;;
    Rege_adaugaCameraCastel rege camera ;;
    cout_put "Camera tronului adaugata." ;; cout_put nl
  else if optiune =? ADD_TEMNITA then
    camera <- creareCamera_at alloc TEMNITA ;;
    Rege_adaugaCameraCastel rege camera ;;
    cout_put "Temnita adaugata." ;; cout_put nl
  else if optiune =? DESC_CASTEL then
    Rege_infoCastel rege
  else if optiune =? IESIRE then
    cout_put "Iesire program." ;; cout_put nl
  else
    cout_put "Optiunea nu se afla in meniu." ;; cout_put nl.

Definition menu_iteration_at (alloc : World -> loc) (rege : loc) (optiune : Z) : M Z :=
  print_menu ;;
  optiune' <- cin_get_int optiune ;;
  dispatch_at alloc rege optiune' ;;
  ret optiune'.

Fixpoint menu_loop_at (alloc : World -> loc) (fuel : nat) (rege : loc)
    (optiune : Z) : M unit :=
  if optiune =? 4 then ret tt
  else match fuel with
       | O => fail OutOfFuel
       | S fuel' =>
           optiune' <- menu_iteration_at alloc rege optiune ;;
           menu_loop_at alloc fuel' rege optiune'
       end.

Fixpoint menu_passes_at (alloc : World -> loc) (n : nat) (rege : loc)
    (optiune : Z) : M Z :=
  match n with
  | O => ret optiune
  | S n' =>
      if optiune =? 4 then ret optiune
      else optiune' <- menu_iteration_at alloc rege optiune ;;
           menu_passes_at alloc n' rege optiune'
  end.

Definition main_at (alloc : World -> loc) (fuel : nat) : M Z :=
  rege <- Rege_getInstance_at alloc ;;
  menu_loop_at alloc fuel rege 0 ;;
  ret 0.

(** The choice [new] makes. *)
Definition first_unused (w : World) : loc := fresh (dom (heap w)).

(** * Properties *)

(** ** Text *)

Lemma append_nil_r (s : string) : s +:+ EmptyString = s.
Proof.
  induction s as [|a s IH]; [reflexivity|].
  change (String a (s +:+ EmptyString) = String a s). now rewrite IH.
Qed.

Lemma append_assoc (s t u : string) : (s +:+ t) +:+ u = s +:+ (t +:+ u).
Proof.
  induction s as [|a s IH]; [reflexivity|].
  change (String a ((s +:+ t) +:+ u) = String a (s +:+ (t +:+ u))).
  now rewrite IH.
Qed.

Lemma fragments_app (rs rs' : list Clona) :
  fragments (rs ++ rs') = fragments rs +:+ fragments rs'.
Proof.
  induction rs as [|r rs IH]; [reflexivity|].
  cbn [fragments app]. now rewrite IH, append_assoc.
Qed.

Lemma written_written (s t : string) (w : World) :
  written t (written s w) = written (s +:+ t) w.
Proof. unfold written; cbn. now rewrite append_assoc. Qed.

Lemma written_nil (w : World) : written EmptyString w = w.
Proof. destruct w; unfold written; cbn. now rewrite append_nil_r. Qed.

Lemma cout_put_written (s : string) (w : World) :
  cout_put s w = Ret tt (written s w).
Proof. reflexivity. Qed.

(** ** The free store *)

Lemma fresh_unused (w : World) : heap w !! fresh (dom (heap w)) = None.
Proof. apply not_elem_of_dom, is_fresh. Qed.

Lemma make_unique_spec (o : object) (w : World) :
  exists l,
    l = fresh (dom (heap w)) /\
    heap w !! l = None /\
    make_unique o w =
      Ret (Some l) (mkWorld (<[l := o]> (heap w)) (instanta w) (cout w) (cin w)).
Proof. exists (fresh (dom (heap w))). auto using fresh_unused. Qed.

Lemma Clona_info_room (w : World) (p : unique_ptr) (c : Clona) :
  room_at w p = Some c ->
  Clona_info p w = Ret tt (written (fragment c) w).
Proof.
  unfold room_at, Clona_info, bind, deref.
  destruct p as [l|]; [|discriminate].
  destruct (heap w !! l) as [[c'|castel]|]; try discriminate.
  intros [= ->]. now destruct c.
Qed.

Lemma room_at_insert_fresh (w : World) (l : loc) (o : object) (p : unique_ptr)
    (c : Clona) (i : unique_ptr) (s : string) (n : istream) :
  heap w !! l = None ->
  room_at w p = Some c ->
  room_at (mkWorld (<[l := o]> (heap w)) i s n) p = Some c.
Proof.
  unfold room_at. destruct p as [l'|]; [|discriminate]. cbn.
  intros Hl Hp. destruct (decide (l = l')) as [->|Hne].
  - now rewrite Hl in Hp.
  - now rewrite lookup_insert_ne.
Qed.

(** ** The factory *)

(** C2: for each of the two enumerators of [TipCamera], [creareCamera]
    returns a pointer to a newly allocated room of the matching class, and
    describing that room writes the label of its kind: "camera tronului, "
    for [CAMERA_TRON] and "temnita, " for [TEMNITA]. *)
Theorem creareCamera_valid_info (tip : TipCamera) (w : World) :
  tip = CAMERA_TRON \/ tip = TEMNITA ->
  exists l w',
    creareCamera tip w = Ret (Some l) w' /\
    heap w !! l = None /\
    room_at w' (Some l) = Some (if tip =? CAMERA_TRON then CameraTron else Temnita) /\
    Clona_info (Some l) w' =
      Ret tt (written (if tip =? CAMERA_TRON then "camera tronului, "
                       else "temnita, ") w').
Proof.
  intros [-> | ->]; cbn [Z.eqb CAMERA_TRON TEMNITA].
  - destruct (make_unique_spec (ORoom CameraTron) w) as (l & _ & Hl & E).
    eexists l, _. unfold creareCamera; cbn. split; [exact E|].
    split; [exact Hl|].
    assert (R : room_at (mkWorld (<[l := ORoom CameraTron]> (heap w))
                           (instanta w) (cout w) (cin w)) (Some l) = Some CameraTron)
      by (cbn; now rewrite lookup_insert_eq).
    split; [exact R|]. exact (Clona_info_room _ _ _ R).
  - destruct (make_unique_spec (ORoom Temnita) w) as (l & _ & Hl & E).
    eexists l, _. unfold creareCamera; cbn. split; [exact E|].
    split; [exact Hl|].
    assert (R : room_at (mkWorld (<[l := ORoom Temnita]> (heap w))
                           (instanta w) (cout w) (cin w)) (Some l) = Some Temnita)
      by (cbn; now rewrite lookup_insert_eq).
    split; [exact R|]. exact (Clona_info_room _ _ _ R).
Qed.

Lemma creareCamera_valid_info_witness :
  exists l w',
    creareCamera TEMNITA (initial_world []) = Ret (Some l) w' /\
    heap (initial_world []) !! l = None /\
    room_at w' (Some l) = Some Temnita /\
    Clona_info (Some l) w' = Ret tt (written "temnita, " w').
Proof.
  apply (creareCamera_valid_info TEMNITA (initial_world [])). right. reflexivity.
Defined.

(** C5: any value of the discriminant other than the two enumerators
    takes the [default] branch: the result is [nullptr], nothing is
    allocated, written or read, and the call does not fail. *)
Theorem creareCamera_other_nullptr (tip : TipCamera) (w : World) :
  tip <> CAMERA_TRON -> tip <> TEMNITA ->
  creareCamera tip w = Ret nullptr w.
Proof.
  intros H0 H1. unfold creareCamera.
  destruct (Z.eqb_spec tip CAMERA_TRON); [contradiction|].
  destruct (Z.eqb_spec tip TEMNITA); [contradiction|].
  reflexivity.
Qed.

Lemma creareCamera_other_nullptr_witness :
  creareCamera 2 (initial_world [1; 4]) = Ret nullptr (initial_world [1; 4]).
Proof.
  apply (creareCamera_other_nullptr 2 (initial_world [1; 4]));
    unfold CAMERA_TRON, TEMNITA; lia.
Defined.

(** ** Cloning *)

(** C4: cloning a live room allocates a new object of the same class at
    an address different from the source's and changes nothing else; both
    rooms then write the same text when described, and destroying either
    of them leaves the other one as it was. *)
Theorem Camera_clone_independent (w : World) (l : loc) (c : Clona) :
  heap w !! l = Some (ORoom c) ->
  exists l' w',
    Camera_clone (Some l) w = Ret (Some l') w' /\
    l' <> l /\
    heap w !! l' = None /\
    w' = mkWorld (<[l' := ORoom c]> (heap w)) (instanta w) (cout w) (cin w) /\
    room_at w' (Some l) = Some c /\
    room_at w' (Some l') = Some c /\
    Clona_info (Some l) w' = Ret tt (written (fragment c) w') /\
    Clona_info (Some l') w' = Ret tt (written (fragment c) w') /\
    (exists v, discard (Some l') w' = Ret tt v /\
               heap v = heap w /\
               Clona_info (Some l) v = Ret tt (written (fragment c) v)) /\
    (exists v, discard (Some l) w' = Ret tt v /\
               heap v !! l = None /\
               Clona_info (Some l') v = Ret tt (written (fragment c) v)).
Proof.
  intros Hl.
  destruct (make_unique_spec (ORoom c) w) as (l' & _ & Hl' & E).
  assert (Hne : l' <> l) by (intros ->; congruence).
  set (w' := mkWorld (<[l' := ORoom c]> (heap w)) (instanta w) (cout w) (cin w)) in *.
  assert (Rl : room_at w' (Some l) = Some c).
  { apply room_at_insert_fresh; [exact Hl'|]. cbn. now rewrite Hl. }
  assert (Rl' : room_at w' (Some l') = Some c)
    by (cbn; now rewrite lookup_insert_eq).
  exists l', w'. repeat split; auto using Clona_info_room.
  - unfold Camera_clone, bind, deref. now rewrite Hl.
  - eexists. split; [reflexivity|]. cbn. split.
    + now apply delete_insert_id.
    + apply Clona_info_room. cbn.
      rewrite lookup_delete_ne by exact Hne.
      rewrite lookup_insert_ne by exact Hne. now rewrite Hl.
  - eexists. split; [reflexivity|]. cbn. split.
    + apply lookup_delete_eq.
    + apply Clona_info_room. cbn.
      rewrite lookup_delete_ne by congruence.
      now rewrite lookup_insert_eq.
Qed.

Lemma Camera_clone_independent_witness :
  let w := mkWorld {[ 1%positive := ORoom Temnita ]} nullptr EmptyString
             (mkIstream [] false) in
  heap w !! 1%positive = Some (ORoom Temnita) /\
  exists l' w',
    Camera_clone (Some 1%positive) w = Ret (Some l') w' /\
    l' <> 1%positive /\
    Clona_info (Some 1%positive) w' = Ret tt (written "temnita, " w') /\
    Clona_info (Some l') w' = Ret tt (written "temnita, " w').
Proof.
  intros w. split; [reflexivity|].
  destruct (Camera_clone_independent w 1%positive Temnita eq_refl)
    as (l' & w' & E & Hne & _ & _ & _ & _ & I & I' & _).
  exists l', w'. auto.
Defined.

(** ** The castle *)

Lemma room_at_written (s : string) (w : World) (p : unique_ptr) :
  room_at (written s w) p = room_at w p.
Proof. reflexivity. Qed.

Lemma for_each_info_rooms (w : World) (ps : list unique_ptr) (rs : list Clona) :
  Forall2 (fun p r => room_at w p = Some r) ps rs ->
  for_each_info ps w = Ret tt (written (fragments rs) w).
Proof.
  intros H. revert w rs H. induction ps as [|p ps IH]; intros w rs H.
  - apply Forall2_nil_inv_l in H as ->. cbn. now rewrite written_nil.
  - apply Forall2_cons_inv_l in H as (r & rs' & Hp & Hps & ->).
    cbn [for_each_info]. unfold bind at 1.
    rewrite (Clona_info_room _ _ _ Hp).
    rewrite (IH (written (fragment r) w) rs').
    + now rewrite written_written.
    + exact Hps.
Qed.

Lemma Castel_info_rooms (w : World) (this : Castel) (rs : list Clona) :
  holds_rooms w this rs ->
  Castel_info this w =
    Ret tt (written ("Castelul are: " +:+ fragments rs +:+ nl) w).
Proof.
  intros H. unfold Castel_info, bind.
  rewrite cout_put_written.
  rewrite (for_each_info_rooms (written "Castelul are: " w) (camere this) rs H).
  rewrite !cout_put_written, !written_written.
  reflexivity.
Qed.

Lemma holds_rooms_adaugaCamera (w : World) (this : Castel) (rs : list Clona)
    (camera : unique_ptr) (c : Clona) :
  holds_rooms w this rs ->
  room_at w camera = Some c ->
  holds_rooms w (Castel_adaugaCamera camera this) (rs ++ [c]).
Proof.
  unfold holds_rooms. cbn. intros H Hc.
  apply Forall2_app; [exact H|]. now constructor.
Qed.

(** C3: [Castel::info] writes "Castelul are: ", then the text of every
    room of [camere] from the first added to the last, then a newline; on
    an empty castle it writes "Castelul are: " and the newline only.
    [Castel::adaugaCamera] is total and puts its argument at the end of
    [camere], so that after any run of additions the rooms are described in
    the order in which they were added. *)
Theorem Castel_info_insertion_order :
  (forall w this rs,
      holds_rooms w this rs ->
      Castel_info this w =
        Ret tt (written ("Castelul are: " +:+ fragments rs +:+ nl) w)) /\
  (forall w,
      Castel_info (mkCastel []) w = Ret tt (written ("Castelul are: " +:+ nl) w)) /\
  (forall camera this,
      camere (Castel_adaugaCamera camera this) = camere this ++ [camera]) /\
  (forall w this rs cameras rs',
      holds_rooms w this rs ->
      Forall2 (fun p r => room_at w p = Some r) cameras rs' ->
      let this' := foldl (fun castel camera => Castel_adaugaCamera camera castel)
                         this cameras in
      camere this' = camere this ++ cameras /\
      Castel_info this' w =
        Ret tt (written ("Castelul are: " +:+ fragments rs +:+ fragments rs' +:+ nl) w)).
Proof.
  split; [exact Castel_info_rooms|].
  split; [intros w; now apply (Castel_info_rooms w (mkCastel []) []), Forall2_nil|].
  split; [reflexivity|].
  intros w this rs cameras rs' H Hc this'. subst this'.
  revert this rs H rs' Hc.
  induction cameras as [|p ps IH]; intros this rs H rs' Hc.
  - apply Forall2_nil_inv_l in Hc as ->. cbn [foldl fragments].
    rewrite app_nil_r. split; [reflexivity|].
    now rewrite (Castel_info_rooms w this rs H).
  - apply Forall2_cons_inv_l in Hc as (r & rs'' & Hp & Hps & ->).
    cbn [foldl].
    destruct (IH _ _ (holds_rooms_adaugaCamera w this rs p r H Hp) rs'' Hps)
      as [E1 E2].
    split.
    + rewrite E1. cbn. now rewrite <- app_assoc.
    + rewrite E2. rewrite fragments_app. cbn [fragments].
      now rewrite append_nil_r, !append_assoc.
Qed.

Lemma Castel_info_insertion_order_witness :
  let w := mkWorld (<[2%positive := ORoom Temnita]> {[ 1%positive := ORoom CameraTron ]})
             nullptr EmptyString (mkIstream [] false) in
  let this := mkCastel [Some 1%positive; Some 2%positive] in
  holds_rooms w this [CameraTron; Temnita] /\
  Castel_info this w =
    Ret tt (written ("Castelul are: camera tronului, temnita, " +:+ nl) w).
Proof.
  intros w this.
  assert (H : holds_rooms w this [CameraTron; Temnita])
    by (repeat constructor).
  split; [exact H|].
  exact (proj1 Castel_info_insertion_order w this [CameraTron; Temnita] H).
Defined.

(** ** The singleton and its castle *)

Lemma room_at_insert_other (w : World) (l : loc) (o : object) (p : unique_ptr)
    (c : Clona) (i : unique_ptr) (s : string) (n : istream) :
  room_at w (Some l) = None ->
  room_at w p = Some c ->
  room_at (mkWorld (<[l := o]> (heap w)) i s n) p = Some c.
Proof.
  destruct p as [l'|]; [|discriminate].
  intros Hl Hp. destruct (decide (l = l')) as [->|Hne].
  - congruence.
  - cbn in *. now rewrite lookup_insert_ne.
Qed.

Lemma kingdom_frame (w w' : World) (rege : loc) (rs : list Clona) :
  heap w' = heap w -> instanta w' = instanta w ->
  kingdom w rege rs -> kingdom w' rege rs.
Proof.
  intros Hh Hi (I & U & castel & R & H). unfold kingdom, holds_rooms, room_at in *.
  rewrite Hh, Hi. eauto.
Qed.

Lemma getInstance_again (w : World) (r : loc) :
  instanta w = Some r -> Rege_getInstance w = Ret r w.
Proof.
  intros H. unfold Rege_getInstance, bind, get_instanta, ret.
  rewrite H. cbn. now rewrite H.
Qed.

Lemma getInstance_first (w : World) :
  instanta w = None ->
  let r := fresh (dom (heap w)) in
  Rege_getInstance w =
    Ret r (mkWorld (<[r := ORege (mkCastel [])]> (heap w)) (Some r) (cout w) (cin w)).
Proof.
  intros H. unfold Rege_getInstance, bind, get_instanta. now rewrite H.
Qed.

Lemma getInstance_realm (w : World) (rs : list Clona) :
  realm w rs ->
  exists r w1,
    Rege_getInstance w = Ret r w1 /\ kingdom w1 r rs /\
    cout w1 = cout w /\ cin w1 = cin w.
Proof.
  unfold realm. destruct (instanta w) as [r|] eqn:I.
  - intros K. exists r, w. now rewrite (getInstance_again w r I).
  - intros [N ->]. eexists _, _. split; [exact (getInstance_first w I)|].
    split; [|split; reflexivity].
    split; [reflexivity|]. cbn. split.
    + intros l castel H.
      destruct (decide (fresh (dom (heap w)) = l)) as [<-|Hne]; [reflexivity|].
      rewrite lookup_insert_ne in H by exact Hne. now apply N in H.
    + exists (mkCastel []). rewrite lookup_insert_eq.
      split; [reflexivity|]. constructor.
Qed.

Lemma initial_realm (input : list Z) : realm (initial_world input) [].
Proof.
  split; [|reflexivity]. intros l castel. cbn. now rewrite lookup_empty.
Qed.

Lemma adauga_kingdom (w : World) (rege : loc) (rs : list Clona) (c : Clona) :
  kingdom w rege rs ->
  exists w',
    (camera <- make_unique (ORoom c) ;; Rege_adaugaCameraCastel rege camera) w
      = Ret tt w' /\
    kingdom w' rege (rs ++ [c]) /\ cout w' = cout w /\ cin w' = cin w.
Proof.
  intros (I & U & castel & R & H).
  pose proof (fresh_unused w) as Hl. set (l := fresh (dom (heap w))) in *.
  assert (Hne : l <> rege) by congruence.
  set (w1 := mkWorld (<[l := ORoom c]> (heap w)) (instanta w) (cout w) (cin w)).
  set (castel' := Castel_adaugaCamera (Some l) castel).
  exists (mkWorld (<[rege := ORege castel']> (heap w1)) (instanta w1) (cout w1) (cin w1)).
  split.
  { unfold make_unique, new, ret, Rege_adaugaCameraCastel, deref, store, bind.
    fold l. cbn. rewrite lookup_insert_ne by exact Hne. now rewrite R. }
  split; [|split; reflexivity].
  split; [exact I|]. split.
  - intros l0 castel0 E. cbn in E.
    destruct (decide (rege = l0)) as [->|N0]; [reflexivity|].
    rewrite lookup_insert_ne in E by exact N0.
    destruct (decide (l = l0)) as [<-|N1].
    + rewrite lookup_insert_eq in E. discriminate.
    + rewrite lookup_insert_ne in E by exact N1. now apply U in E.
  - exists castel'. split; [cbn; now rewrite lookup_insert_eq|].
    apply holds_rooms_adaugaCamera.
    + eapply Forall2_impl; [exact H|]. intros p r Hp. cbn beta in Hp.
      apply room_at_insert_other.
      * cbn. rewrite lookup_insert_ne by exact Hne. now rewrite R.
      * apply room_at_insert_other; [cbn; now rewrite Hl | exact Hp].
    + cbn. rewrite lookup_insert_ne by congruence. now rewrite lookup_insert_eq.
Qed.

Lemma infoCastel_kingdom (w : World) (rege : loc) (rs : list Clona) :
  kingdom w rege rs ->
  Rege_infoCastel rege w =
    Ret tt (written ("Castelul are: " +:+ fragments rs +:+ nl) w).
Proof.
  intros (I & U & castel & R & H).
  unfold Rege_infoCastel, bind, deref. rewrite R.
  now apply Castel_info_rooms.
Qed.

Lemma kingdom_written (s : string) (w : World) (rege : loc) (rs : list Clona) :
  kingdom w rege rs -> kingdom (written s w) rege rs.
Proof. now apply kingdom_frame. Qed.

Lemma kingdom_no_null (w : World) (rege : loc) (rs : list Clona) :
  kingdom w rege rs -> camere_no_null w.
Proof.
  intros (I & U & castel & R & H) l castel0 E.
  pose proof (U _ _ E) as ->. rewrite R in E. injection E as <-.
  unfold no_null. unfold holds_rooms in H.
  induction H as [|p r ps rs' Hp _ IH]; constructor; [|exact IH].
  intros ->. discriminate.
Qed.

(** ** The menu *)

Lemma print_menu_written (w : World) : print_menu w = Ret tt (written menu_text w).
Proof.
  unfold print_menu, bind. rewrite !cout_put_written, !written_written.
  reflexivity.
Qed.

Lemma cin_get_int_read (old z : Z) (rest : list Z) (w : World) :
  cin w = mkIstream (z :: rest) false ->
  is_int z ->
  cin_get_int old w =
    Ret z (mkWorld (heap w) (instanta w) (cout w) (mkIstream rest false)).
Proof.
  intros E [Hlo Hhi]. unfold cin_get_int. rewrite E. cbn.
  destruct (Z.ltb_spec z INT_MIN); [lia|].
  destruct (Z.ltb_spec INT_MAX z); [lia|]. reflexivity.
Qed.

Lemma cin_get_int_frame (old : Z) (w : World) :
  exists z i, cin_get_int old w = Ret z (mkWorld (heap w) (instanta w) (cout w) i).
Proof.
  unfold cin_get_int. destruct w as [h i s [ts f]]. cbn.
  destruct f; [eauto|]. destruct ts as [|z rest]; [eauto|].
  destruct (z <? INT_MIN); [eauto|]. destruct (INT_MAX <? z); eauto.
Qed.

Lemma dispatch_kingdom (w : World) (rege : loc) (rs : list Clona) (optiune : Z) :
  kingdom w rege rs ->
  exists w',
    dispatch rege optiune w = Ret tt w' /\
    kingdom w' rege (rs ++ rooms_added optiune) /\
    cin w' = cin w /\
    cout w' = cout w +:+ reply rs optiune.
Proof.
  intros K. unfold dispatch, rooms_added, reply.
  destruct (optiune =? ADD_CAMERA);
    [|destruct (optiune =? ADD_TEMNITA);
      [|rewrite app_nil_r; destruct (optiune =? DESC_CASTEL);
        [|destruct (optiune =? IESIRE)]]].
  - destruct (adauga_kingdom w rege rs CameraTron K) as (w' & E & K' & Ho & Hi).
    change (creareCamera CAMERA_TRON) with (make_unique (ORoom CameraTron)).
    unfold bind in *.
    destruct (make_unique (ORoom CameraTron) w) as [camera w1|]; [|discriminate].
    rewrite E. rewrite !cout_put_written, written_written.
    eexists. split; [reflexivity|].
    split; [now apply kingdom_written|]. cbn. now rewrite Hi, Ho.
  - destruct (adauga_kingdom w rege rs Temnita K) as (w' & E & K' & Ho & Hi).
    change (creareCamera TEMNITA) with (make_unique (ORoom Temnita)).
    unfold bind in *.
    destruct (make_unique (ORoom Temnita) w) as [camera w1|]; [|discriminate].
    rewrite E. rewrite !cout_put_written, written_written.
    eexists. split; [reflexivity|].
    split; [now apply kingdom_written|]. cbn. now rewrite Hi, Ho.
  - rewrite (infoCastel_kingdom w rege rs K).
    eexists. split; [reflexivity|]. split; [now apply kingdom_written|]. auto.
  - unfold bind. rewrite !cout_put_written, written_written.
    eexists. split; [reflexivity|]. split; [now apply kingdom_written|]. auto.
  - unfold bind. rewrite !cout_put_written, written_written.
    eexists. split; [reflexivity|]. split; [now apply kingdom_written|]. auto.
Qed.

(** A pass that reads the choice [z] from the input. *)
Lemma menu_iteration_read (w : World) (rege : loc) (rs : list Clona)
    (old z : Z) (rest : list Z) :
  kingdom w rege rs ->
  cin w = mkIstream (z :: rest) false ->
  is_int z ->
  exists w',
    menu_iteration rege old w = Ret z w' /\
    kingdom w' rege (rs ++ rooms_added z) /\
    cin w' = mkIstream rest false /\
    cout w' = cout w +:+ menu_text +:+ reply rs z.
Proof.
  intros K E Hz. unfold menu_iteration, bind.
  rewrite print_menu_written.
  rewrite (cin_get_int_read old z rest (written menu_text w) E Hz).
  set (w1 := mkWorld _ _ _ _).
  assert (K1 : kingdom w1 rege rs) by (now apply (kingdom_frame w)).
  destruct (dispatch_kingdom w1 rege rs z K1) as (w' & D & K' & Hi & Ho).
  rewrite D. exists w'. split; [reflexivity|]. split; [exact K'|].
  split; [exact Hi|]. rewrite Ho. cbn. now rewrite append_assoc.
Qed.

(** Any pass at all keeps the singleton and its castle in order. *)
Lemma menu_iteration_kingdom (w : World) (rege : loc) (rs : list Clona) (old : Z) :
  kingdom w rege rs ->
  exists z w' rs',
    menu_iteration rege old w = Ret z w' /\ kingdom w' rege rs'.
Proof.
  intros K. unfold menu_iteration, bind.
  rewrite print_menu_written.
  destruct (cin_get_int_frame old (written menu_text w)) as (z & i & ->).
  set (w1 := mkWorld _ _ _ _).
  assert (K1 : kingdom w1 rege rs) by (now apply (kingdom_frame w)).
  destruct (dispatch_kingdom w1 rege rs z K1) as (w' & D & K' & _).
  rewrite D. eauto.
Qed.

Lemma menu_passes_kingdom (n : nat) (w : World) (rege : loc) (rs : list Clona)
    (old : Z) :
  kingdom w rege rs ->
  exists z w' rs',
    menu_passes n rege old w = Ret z w' /\ kingdom w' rege rs'.
Proof.
  revert w rs old. induction n as [|n IH]; intros w rs old K.
  - cbn. eauto.
  - cbn [menu_passes]. destruct (old =? 4); [cbn; eauto|].
    destruct (menu_iteration_kingdom w rege rs old K) as (z & w1 & rs1 & E & K1).
    unfold bind. rewrite E. now apply (IH w1 rs1).
Qed.

(** The loop and its first passes. *)
Lemma menu_loop_passes (fuel : nat) (rege : loc) (optiune : Z) (w w' : World) :
  menu_loop fuel rege optiune w = Ret tt w' ->
  menu_passes fuel rege optiune w = Ret 4 w'.
Proof.
  revert optiune w. induction fuel as [|fuel IH]; intros optiune w.
  - cbn. destruct (Z.eqb_spec optiune 4) as [->|]; [|discriminate].
    unfold ret. congruence.
  - cbn [menu_loop menu_passes].
    destruct (Z.eqb_spec optiune 4) as [->|]; [unfold ret; congruence|].
    unfold bind. destruct (menu_iteration rege optiune w) as [z w1|]; [|discriminate].
    apply IH.
Qed.

(** More fuel does not change a run that ended. *)
Lemma menu_loop_fuel (fuel fuel' : nat) (rege : loc) (optiune : Z) (w w' : World) :
  (fuel <= fuel')%nat ->
  menu_loop fuel rege optiune w = Ret tt w' ->
  menu_loop fuel' rege optiune w = Ret tt w'.
Proof.
  revert fuel' optiune w. induction fuel as [|fuel IH]; intros fuel' optiune w Hle.
  - cbn. destruct (Z.eqb_spec optiune 4) as [->|]; [|discriminate].
    destruct fuel'; cbn; auto.
  - destruct fuel' as [|fuel']; [lia|].
    cbn [menu_loop]. destruct (optiune =? 4); [auto|].
    unfold bind. destruct (menu_iteration rege optiune w) as [z w1|]; [|discriminate].
    apply IH. lia.
Qed.

Lemma main_fuel (fuel fuel' : nat) (w w' : World) (status : Z) :
  (fuel <= fuel')%nat ->
  main fuel w = Ret status w' ->
  main fuel' w = Ret status w'.
Proof.
  intros Hle. unfold main, bind.
  destruct (Rege_getInstance w) as [rege w1|]; [|discriminate].
  destruct (menu_loop fuel rege 0 w1) as [[] w2|] eqn:E; [|discriminate].
  now rewrite (menu_loop_fuel fuel fuel' rege 0 w1 w2 Hle E).
Qed.

(** ** Termination *)

Lemma menu_loop_until_4 (pre post : list Z) :
  forall (w : World) (rege : loc) (rs : list Clona) (old : Z),
    kingdom w rege rs ->
    old <> 4 ->
    4 ∉ pre ->
    Forall is_int pre ->
    cin w = mkIstream (pre ++ 4 :: post) false ->
    exists w' out,
      menu_loop (S (length pre)) rege old w = Ret tt w' /\
      (forall fuel, (fuel <= length pre)%nat ->
                    menu_loop fuel rege old w = Fault OutOfFuel) /\
      cin w' = mkIstream post false /\
      cout w' = cout w +:+ out +:+ menu_text +:+ "Iesire program." +:+ nl.
Proof.
  induction pre as [|z pre IH]; intros w rege rs old K Hold Hnot Hint E.
  - assert (H4 : is_int 4) by (unfold is_int, INT_MIN, INT_MAX; lia).
    destruct (menu_iteration_read w rege rs old 4 post K E H4)
      as (w' & It & _ & Hi & Ho).
    exists w', EmptyString. repeat split.
    + cbn [length menu_loop]. destruct (Z.eqb_spec old 4); [contradiction|].
      unfold bind. now rewrite It.
    + intros fuel Hf. cbn in Hf. assert (fuel = O) as -> by lia.
      cbn. now destruct (Z.eqb_spec old 4).
    + exact Hi.
    + exact Ho.
  - apply not_elem_of_cons in Hnot as [Hz Hnot].
    apply Forall_cons in Hint as [Hzi Hint].
    destruct (menu_iteration_read w rege rs old z (pre ++ 4 :: post) K E Hzi)
      as (w1 & It & K1 & Hi & Ho).
    destruct (IH w1 rege _ z K1 (not_eq_sym Hz) Hnot Hint Hi)
      as (w' & out & L & Short & Hi' & Ho').
    exists w', (menu_text +:+ reply rs z +:+ out). repeat split.
    + cbn [length]. change (menu_loop (S (S (length pre))) rege old w)
        with ((if old =? 4 then ret tt
               else optiune' <- menu_iteration rege old ;;
                    menu_loop (S (length pre)) rege optiune') w).
      destruct (Z.eqb_spec old 4); [contradiction|].
      unfold bind. now rewrite It.
    + intros [|fuel] Hf; cbn [menu_loop];
        destruct (Z.eqb_spec old 4); try contradiction; [reflexivity|].
      unfold bind. rewrite It. apply Short. cbn in Hf. lia.
    + exact Hi'.
    + rewrite Ho', Ho. now rewrite !append_assoc.
Qed.

(** Once the stream has failed, or the input is used up, nothing more is
    read and [optiune] keeps its value: the loop cannot end any more. *)
Lemma cin_get_int_stuck (old : Z) (w : World) :
  failbit (cin w) = true \/ tokens (cin w) = [] ->
  exists i,
    failbit i = true /\
    cin_get_int old w = Ret old (mkWorld (heap w) (instanta w) (cout w) i).
Proof.
  unfold cin_get_int. destruct w as [h p s [ts f]]. cbn.
  destruct f.
  - intros _. eexists. split; [|reflexivity]. reflexivity.
  - intros [H | ->]; [discriminate|]. eexists. split; [|reflexivity]. reflexivity.
Qed.

Lemma menu_loop_stuck (fuel : nat) :
  forall (w : World) (rege : loc) (rs : list Clona) (old : Z),
    kingdom w rege rs ->
    old <> 4 ->
    failbit (cin w) = true \/ tokens (cin w) = [] ->
    menu_loop fuel rege old w = Fault OutOfFuel.
Proof.
  induction fuel as [|fuel IH]; intros w rege rs old K Hold Hs;
    cbn [menu_loop]; destruct (Z.eqb_spec old 4); try contradiction;
    [reflexivity|].
  unfold menu_iteration, bind. rewrite print_menu_written.
  destruct (cin_get_int_stuck old (written menu_text w) Hs) as (i & Hf & ->).
  set (w1 := mkWorld _ _ _ _).
  assert (K1 : kingdom w1 rege rs) by (now apply (kingdom_frame w)).
  destruct (dispatch_kingdom w1 rege rs old K1) as (w' & D & K' & Hi & _).
  rewrite D. unfold ret. apply (IH w' rege _ old K' Hold).
  left. now rewrite Hi.
Qed.

(** Without a 4 among its [int] choices the program never returns. *)
Lemma menu_loop_without_4 (input : list Z) :
  forall (w : World) (rege : loc) (rs : list Clona) (old : Z) (fuel : nat),
    kingdom w rege rs ->
    old <> 4 ->
    (4 ∉ input) ->
    Forall is_int input ->
    cin w = mkIstream input false ->
    menu_loop fuel rege old w = Fault OutOfFuel.
Proof.
  induction input as [|z input IH]; intros w rege rs old fuel K Hold Hnot Hint Hi.
  - apply (menu_loop_stuck fuel w rege rs old K Hold). right. now rewrite Hi.
  - apply not_elem_of_cons in Hnot as [Hz Hnot].
    apply Forall_cons in Hint as [Hzi Hint].
    destruct fuel as [|fuel]; cbn [menu_loop];
      destruct (Z.eqb_spec old 4); try contradiction; [reflexivity|].
    destruct (menu_iteration_read w rege rs old z input K Hi Hzi)
      as (w2 & It & K2 & Hi2 & _).
    unfold bind. rewrite It.
    exact (IH w2 rege _ z fuel K2 (not_eq_sym Hz) Hnot Hint Hi2).
Qed.

Lemma main_without_4 (input : list Z) (fuel : nat) :
  (4 ∉ input) ->
  Forall is_int input ->
  main fuel (initial_world input) = Fault OutOfFuel.
Proof.
  intros Hnot Hint. unfold main, bind.
  destruct (getInstance_realm _ _ (initial_realm input))
    as (rege & w1 & -> & K & _ & Hi).
  assert (H0 : 0 <> 4) by lia.
  now rewrite (menu_loop_without_4 input w1 rege [] 0 fuel K H0 Hnot Hint Hi).
Qed.

(** C9: on any input of [int] choices among which there is a 4, the loop
    makes one pass per choice up to and including the first 4 and no more:
    the run ends with the menu and the exit message as the last text
    written, what follows that 4 on the input is left unread, and [main]
    returns 0. *)
Theorem main_terminates_at_first_4 (input : list Z) :
  (4 ∈ input) ->
  Forall is_int input ->
  exists pre post w out,
    (input = pre ++ 4 :: post) /\
    (4 ∉ pre) /\
    (forall fuel, (length pre < fuel)%nat ->
                  main fuel (initial_world input) = Ret 0 w) /\
    (forall fuel, (fuel <= length pre)%nat ->
                  main fuel (initial_world input) = Fault OutOfFuel) /\
    cout w = out +:+ menu_text +:+ "Iesire program." +:+ nl /\
    cin w = mkIstream post false.
Proof.
  intros Hin Hint.
  apply list_elem_of_split_l in Hin as (pre & post & -> & Hnot).
  apply Forall_app in Hint as [Hint _].
  destruct (getInstance_realm _ _ (initial_realm (pre ++ 4 :: post)))
    as (rege & w1 & G & K & Ho & Hi).
  assert (H0 : 0 <> 4) by lia.
  destruct (menu_loop_until_4 pre post w1 rege [] 0 K H0 Hnot Hint Hi)
    as (w & out & L & Short & Hi' & Ho').
  exists pre, post, w, out. split; [reflexivity|]. split; [exact Hnot|].
  repeat split.
  - intros fuel Hf. unfold main, bind. rewrite G.
    now rewrite (menu_loop_fuel (S (length pre)) fuel rege 0 w1 w Hf L).
  - intros fuel Hf. unfold main, bind. rewrite G. now rewrite (Short fuel Hf).
  - rewrite Ho', Ho. reflexivity.
  - exact Hi'.
Qed.

Lemma main_terminates_at_first_4_witness :
  (4 ∈ [5; 1; 4; 2; 4]) /\ Forall is_int [5; 1; 4; 2; 4] /\
  exists pre post w out,
    ([5; 1; 4; 2; 4] = pre ++ 4 :: post) /\
    (4 ∉ pre) /\
    (forall fuel, (length pre < fuel)%nat ->
                  main fuel (initial_world [5; 1; 4; 2; 4]) = Ret 0 w) /\
    (forall fuel, (fuel <= length pre)%nat ->
                  main fuel (initial_world [5; 1; 4; 2; 4]) = Fault OutOfFuel) /\
    cout w = out +:+ menu_text +:+ "Iesire program." +:+ nl /\
    cin w = mkIstream post false.
Proof.
  assert (Hin : 4 ∈ [5; 1; 4; 2; 4]) by (do 2 right; left).
  assert (Hint : Forall is_int [5; 1; 4; 2; 4]).
  { repeat constructor; unfold INT_MIN, INT_MAX; lia. }
  split; [exact Hin|]. split; [exact Hint|].
  exact (main_terminates_at_first_4 [5; 1; 4; 2; 4] Hin Hint).
Defined.

(** ** Scenarios *)

(** C1: on the input 1, 2, 1, 3, 4 the program writes the menu five times,
    each followed by the answer to the choice read; the answer to choice 3
    is exactly "Castelul are: camera tronului, temnita, camera tronului, "
    and a newline.  After the answer to choice 4 the program returns, with
    status 0 and all input consumed. *)
Theorem scenario_1_2_1_3_4 :
  exists w,
    (forall fuel, main (5 + fuel) (initial_world [1; 2; 1; 3; 4]) = Ret 0 w) /\
    cout w =
      menu_text +:+ "Camera tronului adaugata." +:+ nl +:+
      menu_text +:+ "Temnita adaugata." +:+ nl +:+
      menu_text +:+ "Camera tronului adaugata." +:+ nl +:+
      menu_text +:+ "Castelul are: camera tronului, temnita, camera tronului, " +:+ nl +:+
      menu_text +:+ "Iesire program." +:+ nl /\
    tokens (cin w) = [] /\
    exists rege before,
      (r <- Rege_getInstance ;; menu_passes 3 r 0 ;; ret r)
        (initial_world [1; 2; 1; 3; 4]) = Ret rege before /\
      tokens (cin before) = [3; 4] /\
      Rege_infoCastel rege before =
        Ret tt (written ("Castelul are: camera tronului, temnita, camera tronului, "
                         +:+ nl) before).
Proof.
  eexists. split.
  - intros fuel. apply (main_fuel 5); [lia|]. vm_compute. reflexivity.
  - split; [vm_compute; reflexivity|]. split; [reflexivity|].
    eexists _, _. split; [vm_compute; reflexivity|].
    split; [reflexivity|]. vm_compute. reflexivity.
Qed.

(** C8: a pass that reads a choice other than 1, 2, 3 and 4 writes the menu
    and the line "Optiunea nu se afla in meniu.", and changes nothing on
    the free store nor [Rege::instanta]: the castle is as it was.  The
    value left in [optiune] is not 4, so the loop goes on to its next pass,
    which starts by writing the menu again. *)
Theorem invalid_choice_no_mutation (w : World) (rege : loc) (old z : Z)
    (rest : list Z) :
  cin w = mkIstream (z :: rest) false ->
  z <> 1 -> z <> 2 -> z <> 3 -> z <> 4 ->
  exists z' w',
    menu_iteration rege old w = Ret z' w' /\
    cout w' = cout w +:+ menu_text +:+ "Optiunea nu se afla in meniu." +:+ nl /\
    heap w' = heap w /\
    instanta w' = instanta w /\
    castel_rooms w' = castel_rooms w /\
    tokens (cin w') = rest /\
    (is_int z -> z' = z) /\
    z' <> 4 /\
    (forall fuel, old <> 4 ->
       menu_loop (S (S fuel)) rege old w =
         (print_menu ;;
          optiune <- cin_get_int z' ;;
          dispatch rege optiune ;;
          menu_loop fuel rege optiune) w').
Proof.
  intros E H1 H2 H3 H4.
  assert (R : exists z' f,
             cin_get_int old (written menu_text w) =
               Ret z' (mkWorld (heap w) (instanta w) (cout w +:+ menu_text)
                         (mkIstream rest f)) /\
             (is_int z -> z' = z) /\
             z' <> 1 /\ z' <> 2 /\ z' <> 3 /\ z' <> 4).
  { unfold cin_get_int, written. cbn. rewrite E. cbn.
    destruct (Z.ltb_spec z INT_MIN) as [Lo|Lo].
    - exists INT_MIN, true. repeat split; unfold is_int, INT_MIN in *; lia.
    - destruct (Z.ltb_spec INT_MAX z) as [Hi|Hi].
      + exists INT_MAX, true. repeat split; unfold is_int, INT_MAX in *; lia.
      + exists z, false. repeat split; auto. }
  destruct R as (z' & f & Rd & Hz & N1 & N2 & N3 & N4).
  assert (It : menu_iteration rege old w =
               Ret z' (mkWorld (heap w) (instanta w)
                         (cout w +:+ menu_text +:+ "Optiunea nu se afla in meniu." +:+ nl)
                         (mkIstream rest f))).
  { unfold menu_iteration, bind. rewrite print_menu_written, Rd.
    unfold dispatch, ADD_CAMERA, ADD_TEMNITA, DESC_CASTEL, IESIRE.
    destruct (Z.eqb_spec z' 1); [contradiction|].
    destruct (Z.eqb_spec z' 2); [contradiction|].
    destruct (Z.eqb_spec z' 3); [contradiction|].
    destruct (Z.eqb_spec z' 4); [contradiction|].
    unfold bind. rewrite !cout_put_written. unfold written, ret. cbn.
    now rewrite !append_assoc. }
  eexists z', _. split; [exact It|].
  do 7 (split; [reflexivity || assumption|]).
  intros fuel Hold.
  change (menu_loop (S (S fuel)) rege old w)
    with ((if old =? 4 then ret tt
           else optiune' <- menu_iteration rege old ;;
                menu_loop (S fuel) rege optiune') w).
  destruct (Z.eqb_spec old 4); [contradiction|].
  unfold bind at 1. rewrite It. cbn [menu_loop].
  destruct (Z.eqb_spec z' 4); [contradiction|].
  unfold menu_iteration, bind, ret. rewrite !print_menu_written.
  destruct (cin_get_int z' _) as [o w2|]; [|reflexivity].
  destruct (dispatch rege o w2) as [[] w3|]; reflexivity.
Qed.

Lemma invalid_choice_no_mutation_witness :
  let w := initial_world [5; 4] in
  cin w = mkIstream [5; 4] false /\
  exists z' w',
    menu_iteration 1%positive 0 w = Ret z' w' /\
    cout w' = cout w +:+ menu_text +:+ "Optiunea nu se afla in meniu." +:+ nl /\
    heap w' = heap w /\
    z' <> 4.
Proof.
  intros w. split; [reflexivity|].
  destruct (invalid_choice_no_mutation w 1%positive 0 5 [4] eq_refl)
    as (z' & w' & It & Ho & Hh & _ & _ & _ & _ & N & _); try lia.
  exists z', w'. auto.
Defined.

(** ** Null entries *)

Lemma program_passes_kingdom (input : list Z) (n : nat) :
  exists rege optiune w rs,
    (rege <- Rege_getInstance ;; menu_passes n rege 0) (initial_world input)
      = Ret optiune w /\
    kingdom w rege rs.
Proof.
  destruct (getInstance_realm _ _ (initial_realm input)) as (rege & w1 & G & K & _).
  destruct (menu_passes_kingdom n w1 rege [] 0 K) as (z & w & rs & P & K').
  exists rege, z, w, rs. unfold bind. now rewrite G.
Qed.

Lemma main_kingdom (input : list Z) (fuel : nat) (status : Z) (w : World) :
  main fuel (initial_world input) = Ret status w ->
  exists rege rs, kingdom w rege rs.
Proof.
  unfold main, bind. intros E.
  destruct (getInstance_realm _ _ (initial_realm input)) as (rege & w1 & G & K & _).
  rewrite G in E.
  destruct (menu_loop fuel rege 0 w1) as [[] w2|] eqn:L; [|discriminate].
  injection E as _ <-.
  apply menu_loop_passes in L.
  destruct (menu_passes_kingdom fuel w1 rege [] 0 K) as (z & w' & rs & P & K').
  rewrite L in P. injection P as _ <-. eauto.
Qed.

(** C6, as the code has it: no [Castel] on the free store has a null
    entry at program start, [Castel::adaugaCamera] keeps [camere] free of
    null entries whenever the pointer it is given is not null, and the
    program, which only adds what the factory returns for the two
    enumerators, never has a null entry in its castle: not after any
    number of passes of the menu loop on any input, and not when [main]
    returns. *)
Theorem camere_no_null_program :
  (forall input, camere_no_null (initial_world input)) /\
  (forall this camera,
      camera <> nullptr -> no_null this ->
      no_null (Castel_adaugaCamera camera this)) /\
  (forall input n,
      exists optiune w,
        (rege <- Rege_getInstance ;; menu_passes n rege 0) (initial_world input)
          = Ret optiune w /\
        camere_no_null w) /\
  (forall input fuel status w,
      main fuel (initial_world input) = Ret status w -> camere_no_null w).
Proof.
  split; [|split; [|split]].
  - intros input l castel. cbn. now rewrite lookup_empty.
  - intros this camera Hc Hn. unfold no_null in *. cbn.
    apply Forall_app. split; [exact Hn|]. now constructor.
  - intros input n.
    destruct (program_passes_kingdom input n) as (rege & z & w & rs & E & K).
    exists z, w. split; [exact E|]. exact (kingdom_no_null w rege rs K).
  - intros input fuel status w E.
    destruct (main_kingdom input fuel status w E) as (rege & rs & K).
    exact (kingdom_no_null w rege rs K).
Qed.

Lemma camere_no_null_program_witness :
  no_null (mkCastel [Some 2%positive]) /\
  no_null (Castel_adaugaCamera (Some 3%positive) (mkCastel [Some 2%positive])) /\
  exists w, main 3 (initial_world [1; 2; 4]) = Ret 0 w /\ camere_no_null w.
Proof.
  assert (H : no_null (mkCastel [Some 2%positive])) by (now repeat constructor).
  split; [exact H|]. split.
  - apply (proj1 (proj2 camere_no_null_program)); [discriminate | exact H].
  - eexists.
    assert (E : main 3 (initial_world [1; 2; 4]) = Ret 0 _)
      by (vm_compute; reflexivity).
    split; [exact E|].
    exact (proj2 (proj2 (proj2 camere_no_null_program)) _ _ _ _ E).
Defined.

(** C6, as stated, fails: [Castel::adaugaCamera] stores whatever pointer
    it is given, so a call with [nullptr], which is what the factory returns
    for a discriminant that is no enumerator, puts a null entry into a
    castle that had none. *)
Lemma adaugaCamera_nullptr_breaks_no_null :
  ~ (forall this camera, no_null this -> no_null (Castel_adaugaCamera camera this)) /\
  exists rege w1 w2,
    Rege_getInstance (initial_world []) = Ret rege w1 /\
    camere_no_null w1 /\
    (camera <- creareCamera 2 ;; Rege_adaugaCameraCastel rege camera) w1
      = Ret tt w2 /\
    heap w2 !! rege = Some (ORege (mkCastel [nullptr])) /\
    ~ camere_no_null w2.
Proof.
  split.
  - intros H. specialize (H (mkCastel []) nullptr (Forall_nil_2 _)).
    unfold no_null in H. cbn in H. apply Forall_cons in H as [H _]. now apply H.
  - exists 1%positive,
      (mkWorld {[ 1%positive := ORege (mkCastel []) ]} (Some 1%positive)
         EmptyString (mkIstream [] false)),
      (mkWorld {[ 1%positive := ORege (mkCastel [nullptr]) ]} (Some 1%positive)
         EmptyString (mkIstream [] false)).
    split; [vm_compute; reflexivity|].
    split.
    { intros l castel E. cbn in E.
      apply lookup_singleton_Some in E as [_ E].
      injection E as <-. constructor. }
    split; [vm_compute; reflexivity|].
    split; [reflexivity|].
    intros H. specialize (H 1%positive (mkCastel [nullptr]) eq_refl).
    unfold no_null in H. cbn in H. apply Forall_cons in H as [H _]. now apply H.
Qed.

(** ** One [Rege] *)

Lemma size_at_most_one (m : gmap loc object) (r : loc) :
  (forall l o, m !! l = Some o -> l = r) -> (size m <= 1)%nat.
Proof.
  intros H. destruct (m !! r) as [o|] eqn:E.
  - assert (m = {[ r := o ]}) as ->.
    { apply map_eq. intros l. destruct (decide (l = r)) as [->|Hne].
      - now rewrite lookup_singleton_eq.
      - rewrite lookup_singleton_ne by congruence.
        destruct (m !! l) as [o'|] eqn:E'; [|reflexivity].
        now apply H in E'. }
    rewrite map_size_singleton. lia.
  - assert (m = ∅) as ->.
    { apply map_empty. intros l.
      destruct (m !! l) as [o'|] eqn:E'; [|reflexivity].
      pose proof (H _ _ E') as ->. congruence. }
    rewrite map_size_empty. lia.
Qed.

Lemma kingdom_Rege_count (w : World) (rege : loc) (rs : list Clona) :
  kingdom w rege rs -> (Rege_count w <= 1)%nat.
Proof.
  intros (I & U & _). unfold Rege_count.
  apply (size_at_most_one _ rege). intros l o E.
  apply map_lookup_filter_Some in E as [E P]. cbn in P.
  destruct o as [c|castel]; [discriminate|]. exact (U l castel E).
Qed.

Lemma getInstance_times_again (n : nat) (w : World) (r : loc) :
  instanta w = Some r ->
  getInstance_times n w = Ret (replicate n r) w.
Proof.
  intros I. induction n as [|n IH]; [reflexivity|].
  cbn [getInstance_times replicate]. unfold bind.
  rewrite (getInstance_again w r I), IH. reflexivity.
Qed.

(** C7: from a state in which at most the singleton exists,
    [Rege::getInstance] called any number of times in a row returns the
    address of one and the same [Rege], and this is the only [Rege] alive;
    a room made by the factory and added through the reference of one call
    is described, after those the castle already had, through the
    reference of a later call. *)
Theorem getInstance_singleton (w : World) (rs : list Clona) :
  realm w rs ->
  exists r w1,
    (forall n, getInstance_times (S n) w = Ret (replicate (S n) r) w1) /\
    instanta w1 = Some r /\
    (Rege_count w1 <= 1)%nat /\
    (forall tip,
        tip = CAMERA_TRON \/ tip = TEMNITA ->
        exists w2,
          (r1 <- Rege_getInstance ;;
           camera <- creareCamera tip ;;
           Rege_adaugaCameraCastel r1 camera ;;
           r2 <- Rege_getInstance ;;
           Rege_infoCastel r2 ;;
           ret (r1, r2)) w = Ret (r, r) w2 /\
          cout w2 =
            cout w +:+ "Castelul are: " +:+ fragments rs +:+
            (if tip =? CAMERA_TRON then "camera tronului, " else "temnita, ") +:+ nl /\
          (Rege_count w2 <= 1)%nat).
Proof.
  intros R.
  destruct (getInstance_realm w rs R) as (r & w1 & G & K & Ho & Hi).
  pose proof K as (I & _).
  exists r, w1. split; [|split; [exact I|split]].
  - intros n. cbn [getInstance_times replicate]. unfold bind. rewrite G.
    now rewrite (getInstance_times_again n w1 r I).
  - exact (kingdom_Rege_count w1 r rs K).
  - intros tip Htip.
    assert (exists c, creareCamera tip = make_unique (ORoom c) /\
                      fragment c = if tip =? CAMERA_TRON then "camera tronului, "
                                   else "temnita, ") as (c & -> & <-).
    { destruct Htip as [-> | ->]; [exists CameraTron | exists Temnita]; auto. }
    destruct (adauga_kingdom w1 r rs c K) as (w2 & A & K2 & Ho2 & Hi2).
    pose proof K2 as (I2 & _).
    exists (written ("Castelul are: " +:+ fragments (rs ++ [c]) +:+ nl) w2).
    split; [|split].
    + unfold bind in *. rewrite G.
      destruct (make_unique (ORoom c) w1) as [camera w'|]; [|discriminate].
      rewrite A, (getInstance_again w2 r I2), (infoCastel_kingdom w2 r _ K2).
      reflexivity.
    + cbn [cout written]. rewrite Ho2, Ho, fragments_app. cbn [fragments].
      now rewrite append_nil_r, !append_assoc.
    + apply (kingdom_Rege_count _ r (rs ++ [c])). now apply kingdom_written.
Qed.

Lemma getInstance_singleton_witness :
  realm (initial_world [1; 4]) [] /\
  exists r w1,
    (forall n, getInstance_times (S n) (initial_world [1; 4])
               = Ret (replicate (S n) r) w1) /\
    instanta w1 = Some r /\
    (Rege_count w1 <= 1)%nat.
Proof.
  pose proof (initial_realm [1; 4]) as R.
  split; [exact R|].
  destruct (getInstance_singleton (initial_world [1; 4]) [] R)
    as (r & w1 & T & I & C & _).
  exists r, w1. auto.
Defined.

(** * Further properties *)

(** ** When describing is defined *)

Lemma Clona_info_no_room (w : World) (p : unique_ptr) :
  room_at w p = None -> Clona_info p w = Fault UndefinedBehaviour.
Proof.
  unfold room_at, Clona_info, bind, deref.
  destruct p as [l|]; [|reflexivity].
  destruct (heap w !! l) as [[c|castel]|]; [discriminate|reflexivity..].
Qed.

Lemma for_each_info_no_room (ps : list unique_ptr) :
  forall w, Exists (fun p => room_at w p = None) ps ->
            for_each_info ps w = Fault UndefinedBehaviour.
Proof.
  induction ps as [|p ps IH]; intros w H; [inversion H|].
  cbn [for_each_info]. unfold bind.
  destruct (room_at w p) as [c|] eqn:R.
  - rewrite (Clona_info_room _ _ _ R). apply IH.
    apply Exists_cons in H as [H|H]; [congruence|exact H].
  - now rewrite (Clona_info_no_room _ _ R).
Qed.

Lemma rooms_or_not (w : World) (ps : list unique_ptr) :
  (exists rs, Forall2 (fun p r => room_at w p = Some r) ps rs) \/
  Exists (fun p => room_at w p = None) ps.
Proof.
  induction ps as [|p ps [[rs IH]|IH]].
  - left. exists []. constructor.
  - destruct (room_at w p) as [c|] eqn:R.
    + left. exists (c :: rs). now constructor.
    + right. now constructor.
  - right. now apply Exists_cons_tl.
Qed.

Lemma rooms_all_some (w : World) (ps : list unique_ptr) (rs : list Clona) :
  Forall2 (fun p r => room_at w p = Some r) ps rs ->
  Forall (fun p => is_Some (room_at w p)) ps.
Proof. induction 1; constructor; eauto. Qed.

Lemma rooms_not_both (w : World) (ps : list unique_ptr) :
  Forall (fun p => is_Some (room_at w p)) ps ->
  Exists (fun p => room_at w p = None) ps -> False.
Proof.
  induction 2 as [p ps Hp|p ps _ IH].
  - apply Forall_cons in H as [[c Hc] _]. congruence.
  - apply Forall_cons in H as [_ H]. now apply IH.
Qed.

(** [Castel::info] dereferences every entry of [camere]: it returns
    exactly when every entry leads to a live room, and an entry that is
    null, dangling or not a room makes the call undefined behaviour. *)
Theorem Castel_info_defined_iff (w : World) (this : Castel) :
  ((exists w', Castel_info this w = Ret tt w') <->
   Forall (fun p => is_Some (room_at w p)) (camere this)) /\
  (Exists (fun p => room_at w p = None) (camere this) ->
   Castel_info this w = Fault UndefinedBehaviour).
Proof.
  assert (U : Exists (fun p => room_at w p = None) (camere this) ->
              Castel_info this w = Fault UndefinedBehaviour).
  { intros H. unfold Castel_info, bind. rewrite cout_put_written.
    now rewrite (for_each_info_no_room (camere this) (written "Castelul are: " w) H). }
  split; [|exact U]. split.
  - intros [w' E]. destruct (rooms_or_not w (camere this)) as [[rs H]|H].
    + exact (rooms_all_some w _ rs H).
    + rewrite (U H) in E. discriminate.
  - intros H. destruct (rooms_or_not w (camere this)) as [[rs H']|H'].
    + eexists. exact (Castel_info_rooms w this rs H').
    + exfalso. exact (rooms_not_both w _ H H').
Qed.

Lemma Castel_info_defined_iff_witness :
  let w := mkWorld {[ 1%positive := ORoom CameraTron ]} nullptr EmptyString
             (mkIstream [] false) in
  Exists (fun p => room_at w p = None) [Some 1%positive; nullptr] /\
  Castel_info (mkCastel [Some 1%positive; nullptr]) w = Fault UndefinedBehaviour.
Proof.
  intros w.
  assert (H : Exists (fun p => room_at w p = None) [Some 1%positive; nullptr])
    by (right; left; reflexivity).
  split; [exact H|].
  exact (proj2 (Castel_info_defined_iff w (mkCastel [Some 1%positive; nullptr])) H).
Defined.

(** ** The program stays within defined behaviour *)

Lemma menu_loop_safe (fuel : nat) :
  forall (w : World) (rege : loc) (rs : list Clona) (old : Z),
    kingdom w rege rs ->
    menu_loop fuel rege old w = Fault OutOfFuel \/
    exists w', menu_loop fuel rege old w = Ret tt w'.
Proof.
  induction fuel as [|fuel IH]; intros w rege rs old K; cbn [menu_loop];
    destruct (old =? 4); try (right; eexists; reflexivity);
    [left; reflexivity|].
  destruct (menu_iteration_kingdom w rege rs old K) as (z & w1 & rs1 & E & K1).
  unfold bind. rewrite E. exact (IH w1 rege rs1 z K1).
Qed.

(** Whatever numerals are on the input, in range or not, exhausted or
    not, and however many passes are allowed, [main] never dereferences a
    null or dangling pointer: it either returns 0 or is still in the loop. *)
Theorem main_no_undefined_behaviour (input : list Z) (fuel : nat) :
  main fuel (initial_world input) = Fault OutOfFuel \/
  exists w, main fuel (initial_world input) = Ret 0 w.
Proof.
  unfold main, bind.
  destruct (getInstance_realm _ _ (initial_realm input)) as (rege & w1 & -> & K & _).
  destruct (menu_loop_safe fuel w1 rege [] 0 K) as [-> | [w ->]];
    [now left | right; now exists w].
Qed.

(** ** Which inputs end the program *)

(** A pass that meets a numeral outside the range of [int]. *)
Lemma menu_iteration_overflow (w : World) (rege : loc) (rs : list Clona)
    (old z : Z) (rest : list Z) :
  kingdom w rege rs ->
  cin w = mkIstream (z :: rest) false ->
  ~ is_int z ->
  exists z' w' rs',
    menu_iteration rege old w = Ret z' w' /\
    kingdom w' rege rs' /\
    failbit (cin w') = true /\
    z' <> 4.
Proof.
  intros K E Hz. unfold menu_iteration, bind. rewrite print_menu_written.
  assert (R : exists z',
             cin_get_int old (written menu_text w) =
               Ret z' (mkWorld (heap w) (instanta w) (cout w +:+ menu_text)
                         (mkIstream rest true)) /\ z' <> 4).
  { unfold cin_get_int, written. cbn. rewrite E. cbn.
    destruct (Z.ltb_spec z INT_MIN) as [Lo|Lo].
    - exists INT_MIN. split; [reflexivity|]. unfold INT_MIN. lia.
    - destruct (Z.ltb_spec INT_MAX z) as [Hi|Hi].
      + exists INT_MAX. split; [reflexivity|]. unfold INT_MAX. lia.
      + exfalso. apply Hz. split; assumption. }
  destruct R as (z' & -> & N).
  set (w1 := mkWorld _ _ _ _).
  assert (K1 : kingdom w1 rege rs) by (now apply (kingdom_frame w)).
  destruct (dispatch_kingdom w1 rege rs z' K1) as (w' & D & K' & Hi & _).
  rewrite D. exists z', w', (rs ++ rooms_added z').
  split; [reflexivity|]. split; [exact K'|]. split; [now rewrite Hi | exact N].
Qed.

Lemma menu_loop_ends_or_not (input : list Z) :
  forall (w : World) (rege : loc) (rs : list Clona) (old : Z),
    kingdom w rege rs ->
    old <> 4 ->
    cin w = mkIstream input false ->
    (exists pre post, input = pre ++ 4 :: post /\ (4 ∉ pre) /\ Forall is_int pre) \/
    (forall fuel, menu_loop fuel rege old w = Fault OutOfFuel).
Proof.
  induction input as [|z input IH]; intros w rege rs old K Hold Hi.
  - right. intros fuel. apply (menu_loop_stuck fuel w rege rs old K Hold).
    right. now rewrite Hi.
  - destruct (Z.eq_dec z 4) as [->|Hz].
    { left. exists [], input. split; [reflexivity|].
      split; [apply not_elem_of_nil | constructor]. }
    assert (D : is_int z \/ ~ is_int z) by (unfold is_int; lia).
    destruct D as [Hzi|Hzi].
    + destruct (menu_iteration_read w rege rs old z input K Hi Hzi)
        as (w1 & It & K1 & Hi1 & _).
      destruct (IH w1 rege _ z K1 Hz Hi1) as [(pre & post & -> & Hnot & Hint)|L].
      * left. exists (z :: pre), post. split; [reflexivity|]. split.
        -- apply not_elem_of_cons. split; [congruence | exact Hnot].
        -- now constructor.
      * right. intros [|fuel]; cbn [menu_loop];
          destruct (Z.eqb_spec old 4); try contradiction; [reflexivity|].
        unfold bind. rewrite It. apply L.
    + right.
      destruct (menu_iteration_overflow w rege rs old z input K Hi Hzi)
        as (z' & w1 & rs1 & It & K1 & Hf & N).
      intros [|fuel]; cbn [menu_loop];
        destruct (Z.eqb_spec old 4); try contradiction; [reflexivity|].
      unfold bind. rewrite It.
      apply (menu_loop_stuck fuel w1 rege rs1 z' K1 N). now left.
Qed.

(** [main] returns exactly on the inputs on which a 4 is read: a 4 with
    only [int] values other than 4 before it.  On every other input (no 4
    at all, or a numeral outside the range of [int] before the first 4)
    the loop goes on for ever. *)
Theorem main_returns_iff (input : list Z) :
  (exists fuel status w, main fuel (initial_world input) = Ret status w) <->
  (exists pre post, input = pre ++ 4 :: post /\ (4 ∉ pre) /\ Forall is_int pre).
Proof.
  destruct (getInstance_realm _ _ (initial_realm input))
    as (rege & w1 & G & K & _ & Hi).
  assert (H0 : 0 <> 4) by lia.
  split.
  - intros (fuel & status & w & E).
    destruct (menu_loop_ends_or_not input w1 rege [] 0 K H0 Hi) as [D|L]; [exact D|].
    unfold main, bind in E. rewrite G, (L fuel) in E. discriminate.
  - intros (pre & post & -> & Hnot & Hint).
    destruct (menu_loop_until_4 pre post w1 rege [] 0 K H0 Hnot Hint Hi)
      as (w & out & L & _).
    exists (S (length pre)), 0, w. unfold main, bind. now rewrite G, L.
Qed.

(** ** What a run leaves behind *)

Lemma kingdom_castel_rooms (w : World) (rege : loc) (rs : list Clona) :
  kingdom w rege rs -> castel_rooms w = map Some rs.
Proof.
  intros (I & _ & castel & R & H). unfold castel_rooms. rewrite I, R.
  induction H as [|p r ps rs' Hp _ IH]; [reflexivity|].
  cbn [map]. now rewrite Hp, IH.
Qed.

Lemma menu_loop_transcript (pre post : list Z) :
  forall (w : World) (rege : loc) (rs : list Clona) (old : Z),
    kingdom w rege rs ->
    old <> 4 ->
    (4 ∉ pre) ->
    Forall is_int pre ->
    cin w = mkIstream (pre ++ 4 :: post) false ->
    exists w',
      menu_loop (S (length pre)) rege old w = Ret tt w' /\
      kingdom w' rege (rs ++ flat_map rooms_added pre) /\
      cout w' = cout w +:+ transcript rs (pre ++ [4]).
Proof.
  induction pre as [|z pre IH]; intros w rege rs old K Hold Hnot Hint E.
  - assert (H4 : is_int 4) by (unfold is_int, INT_MIN, INT_MAX; lia).
    destruct (menu_iteration_read w rege rs old 4 post K E H4)
      as (w' & It & K' & _ & Ho).
    exists w'. split; [|split].
    + cbn [length menu_loop]. destruct (Z.eqb_spec old 4); [contradiction|].
      unfold bind. now rewrite It.
    + exact K'.
    + rewrite Ho. cbn [app transcript]. now rewrite append_nil_r.
  - apply not_elem_of_cons in Hnot as [Hz Hnot].
    apply Forall_cons in Hint as [Hzi Hint].
    destruct (menu_iteration_read w rege rs old z (pre ++ 4 :: post) K E Hzi)
      as (w1 & It & K1 & Hi & Ho).
    destruct (IH w1 rege _ z K1 (not_eq_sym Hz) Hnot Hint Hi) as (w' & L & K' & Ho').
    exists w'. split; [|split].
    + cbn [length]. change (menu_loop (S (S (length pre))) rege old w)
        with ((if old =? 4 then ret tt
               else optiune' <- menu_iteration rege old ;;
                    menu_loop (S (length pre)) rege optiune') w).
      destruct (Z.eqb_spec old 4); [contradiction|].
      unfold bind. now rewrite It.
    + cbn [flat_map]. now rewrite app_assoc.
    + rewrite Ho', Ho. cbn [app transcript]. now rewrite !append_assoc.
Qed.

(** When [main] returns, the castle holds one room for every choice 1
    (a throne room) and every choice 2 (a dungeon) read before the closing
    4, in the order of the choices, and nothing else. *)
Theorem main_final_rooms (pre post : list Z) :
  (4 ∉ pre) ->
  Forall is_int pre ->
  exists w,
    (forall fuel, (length pre < fuel)%nat ->
                  main fuel (initial_world (pre ++ 4 :: post)) = Ret 0 w) /\
    castel_rooms w = map Some (flat_map rooms_added pre).
Proof.
  intros Hnot Hint.
  destruct (getInstance_realm _ _ (initial_realm (pre ++ 4 :: post)))
    as (rege & w1 & G & K & _ & Hi).
  assert (H0 : 0 <> 4) by lia.
  destruct (menu_loop_transcript pre post w1 rege [] 0 K H0 Hnot Hint Hi)
    as (w & L & K' & _).
  exists w. split.
  - intros fuel Hf. unfold main, bind. rewrite G.
    now rewrite (menu_loop_fuel (S (length pre)) fuel rege 0 w1 w Hf L).
  - exact (kingdom_castel_rooms w rege _ K').
Qed.

(** The complete text a terminating run writes is the transcript of the
    choices read: the menu before each, and after it the confirmation, the
    description of the rooms added so far, the exit line or the
    invalid-option line. *)
Theorem main_output_transcript (pre post : list Z) :
  (4 ∉ pre) ->
  Forall is_int pre ->
  exists w,
    (forall fuel, (length pre < fuel)%nat ->
                  main fuel (initial_world (pre ++ 4 :: post)) = Ret 0 w) /\
    cout w = transcript [] (pre ++ [4]).
Proof.
  intros Hnot Hint.
  destruct (getInstance_realm _ _ (initial_realm (pre ++ 4 :: post)))
    as (rege & w1 & G & K & Ho & Hi).
  assert (H0 : 0 <> 4) by lia.
  destruct (menu_loop_transcript pre post w1 rege [] 0 K H0 Hnot Hint Hi)
    as (w & L & _ & Ho').
  exists w. split.
  - intros fuel Hf. unfold main, bind. rewrite G.
    now rewrite (menu_loop_fuel (S (length pre)) fuel rege 0 w1 w Hf L).
  - rewrite Ho', Ho. reflexivity.
Qed.

Lemma main_final_rooms_witness :
  (4 ∉ [1; 2; 3; 1]) /\ Forall is_int [1; 2; 3; 1] /\
  exists w,
    (forall fuel, (length [1; 2; 3; 1] < fuel)%nat ->
                  main fuel (initial_world ([1; 2; 3; 1] ++ 4 :: [2])) = Ret 0 w) /\
    castel_rooms w = [Some CameraTron; Some Temnita; Some CameraTron].
Proof.
  assert (Hnot : 4 ∉ [1; 2; 3; 1]).
  { intros H. repeat (apply elem_of_cons in H as [H|H]; [lia|]).
    now apply elem_of_nil in H. }
  assert (Hint : Forall is_int [1; 2; 3; 1]).
  { repeat constructor; unfold INT_MIN, INT_MAX; lia. }
  split; [exact Hnot|]. split; [exact Hint|].
  exact (main_final_rooms [1; 2; 3; 1] [2] Hnot Hint).
Defined.

Lemma main_output_transcript_witness :
  (4 ∉ [2; 7; 3]) /\ Forall is_int [2; 7; 3] /\
  exists w,
    (forall fuel, (length [2; 7; 3] < fuel)%nat ->
                  main fuel (initial_world ([2; 7; 3] ++ 4 :: [])) = Ret 0 w) /\
    cout w = transcript [] [2; 7; 3; 4].
Proof.
  assert (Hnot : 4 ∉ [2; 7; 3]).
  { intros H. repeat (apply elem_of_cons in H as [H|H]; [lia|]).
    now apply elem_of_nil in H. }
  assert (Hint : Forall is_int [2; 7; 3]).
  { repeat constructor; unfold INT_MIN, INT_MAX; lia. }
  split; [exact Hnot|]. split; [exact Hint|].
  exact (main_output_transcript [2; 7; 3] [] Hnot Hint).
Defined.

(** ** Ownership *)

Lemma adauga_world (w : World) (rege : loc) (castel : Castel) (c : Clona) :
  heap w !! rege = Some (ORege castel) ->
  (camera <- make_unique (ORoom c) ;; Rege_adaugaCameraCastel rege camera) w =
    Ret tt (mkWorld
              (<[rege := ORege (Castel_adaugaCamera (Some (fresh (dom (heap w)))) castel)]>
                 (<[fresh (dom (heap w)) := ORoom c]> (heap w)))
              (instanta w) (cout w) (cin w)).
Proof.
  intros R. pose proof (fresh_unused w) as Hl.
  assert (Hne : fresh (dom (heap w)) <> rege) by congruence.
  unfold make_unique, new, ret, Rege_adaugaCameraCastel, deref, store, bind.
  cbn. rewrite lookup_insert_ne by exact Hne. now rewrite R.
Qed.

Lemma owns_all_frame (w w' : World) (rege : loc) :
  heap w' = heap w -> owns_all w rege -> owns_all w' rege.
Proof. intros Hh. unfold owns_all. now rewrite Hh. Qed.

Lemma adauga_owns_all (w w' : World) (rege : loc) (rs : list Clona) (c : Clona) :
  kingdom w rege rs ->
  owns_all w rege ->
  (camera <- make_unique (ORoom c) ;; Rege_adaugaCameraCastel rege camera) w
    = Ret tt w' ->
  owns_all w' rege.
Proof.
  intros (_ & _ & castel0 & R0 & H) (castel & R & ND & Own) E.
  rewrite R in R0. injection R0 as <-.
  rewrite (adauga_world w rege castel c R) in E. injection E as <-.
  pose proof (fresh_unused w) as Hl. set (l := fresh (dom (heap w))) in *.
  assert (Hne : l <> rege) by congruence.
  exists (Castel_adaugaCamera (Some l) castel). cbn. split; [|split].
  - now rewrite lookup_insert_eq.
  - apply NoDup_app. split; [exact ND|]. split; [|apply NoDup_singleton].
    intros p Hp Hp'. apply list_elem_of_singleton in Hp' as ->.
    pose proof (rooms_all_some w _ rs H) as A.
    rewrite Forall_forall in A. destruct (A _ Hp) as [r Hr].
    cbn in Hr. now rewrite Hl in Hr.
  - intros l0 c0 E. apply elem_of_app.
    destruct (decide (rege = l0)) as [<-|N0].
    { rewrite lookup_insert_eq in E. discriminate. }
    rewrite lookup_insert_ne in E by exact N0.
    destruct (decide (l = l0)) as [<-|N1].
    + right. apply list_elem_of_singleton. reflexivity.
    + rewrite lookup_insert_ne in E by exact N1. left. exact (Own l0 c0 E).
Qed.

Lemma dispatch_owns_all (w w' : World) (rege : loc) (rs : list Clona) (optiune : Z) :
  kingdom w rege rs ->
  owns_all w rege ->
  dispatch rege optiune w = Ret tt w' ->
  owns_all w' rege.
Proof.
  intros K O. unfold dispatch.
  destruct (optiune =? ADD_CAMERA);
    [|destruct (optiune =? ADD_TEMNITA);
      [|destruct (optiune =? DESC_CASTEL); [|destruct (optiune =? IESIRE)]]].
  - destruct (adauga_kingdom w rege rs CameraTron K) as (w1 & E & _).
    pose proof (adauga_owns_all w w1 rege rs CameraTron K O E) as O1.
    change (creareCamera CAMERA_TRON) with (make_unique (ORoom CameraTron)).
    unfold bind in *.
    destruct (make_unique (ORoom CameraTron) w) as [camera w0|]; [|discriminate].
    rewrite E, !cout_put_written. intros [= <-].
    now apply (owns_all_frame w1).
  - destruct (adauga_kingdom w rege rs Temnita K) as (w1 & E & _).
    pose proof (adauga_owns_all w w1 rege rs Temnita K O E) as O1.
    change (creareCamera TEMNITA) with (make_unique (ORoom Temnita)).
    unfold bind in *.
    destruct (make_unique (ORoom Temnita) w) as [camera w0|]; [|discriminate].
    rewrite E, !cout_put_written. intros [= <-].
    now apply (owns_all_frame w1).
  - rewrite (infoCastel_kingdom w rege rs K). intros [= <-].
    now apply (owns_all_frame w).
  - unfold bind. rewrite !cout_put_written. intros [= <-].
    now apply (owns_all_frame w).
  - unfold bind. rewrite !cout_put_written. intros [= <-].
    now apply (owns_all_frame w).
Qed.

Lemma menu_passes_owns_all (n : nat) :
  forall (w : World) (rege : loc) (rs : list Clona) (old : Z),
    kingdom w rege rs ->
    owns_all w rege ->
    exists z w' rs',
      menu_passes n rege old w = Ret z w' /\
      kingdom w' rege rs' /\ owns_all w' rege.
Proof.
  induction n as [|n IH]; intros w rege rs old K O.
  - cbn. eauto 6.
  - cbn [menu_passes]. destruct (old =? 4); [cbn; eauto 6|].
    destruct (menu_iteration_kingdom w rege rs old K) as (z & w1 & rs1 & E & K1).
    assert (O1 : owns_all w1 rege).
    { revert E. unfold menu_iteration, bind. rewrite print_menu_written.
      destruct (cin_get_int_frame old (written menu_text w)) as (z0 & i & ->).
      set (w0 := mkWorld _ _ _ _).
      destruct (dispatch rege z0 w0) as [[] w2|] eqn:D; [|discriminate].
      intros [= _ <-].
      apply (dispatch_owns_all w0 w2 rege rs z0); [| |exact D].
      - now apply (kingdom_frame w).
      - now apply (owns_all_frame w). }
    unfold bind. rewrite E. exact (IH w1 rege rs1 z K1 O1).
Qed.

(** Before the first pass of the menu loop and after every pass, on any
    input, the castle of the singleton is the one owner of every room on
    the free store: each room alive is pointed to by an entry of [camere]
    (nothing leaks), and no two entries are the same pointer (nothing is
    owned twice). *)
Theorem program_owns_rooms (input : list Z) (n : nat) :
  exists rege optiune w castel,
    (r <- Rege_getInstance ;; menu_passes n r 0) (initial_world input)
      = Ret optiune w /\
    instanta w = Some rege /\
    heap w !! rege = Some (ORege castel) /\
    NoDup (camere castel) /\
    (forall l c, heap w !! l = Some (ORoom c) -> Some l ∈ camere castel).
Proof.
  pose proof (getInstance_first (initial_world input) eq_refl) as G. cbn zeta in G.
  destruct (getInstance_realm _ _ (initial_realm input)) as (rege & w1 & G' & K & _).
  rewrite G in G'. injection G' as <- <-.
  set (r := fresh (dom (heap (initial_world input)))) in *.
  set (w1 := mkWorld _ _ _ _) in *.
  assert (O : owns_all w1 r).
  { exists (mkCastel []). cbn. split; [now rewrite lookup_insert_eq|].
    split; [constructor|]. intros l c E.
    destruct (decide (r = l)) as [<-|N].
    - rewrite lookup_insert_eq in E. discriminate.
    - rewrite lookup_insert_ne in E by exact N. now rewrite lookup_empty in E. }
  destruct (menu_passes_owns_all n w1 r [] 0 K O)
    as (z & w & rs & P & (I & _) & castel & R & ND & Own).
  exists r, z, w, castel. unfold bind. rewrite G. auto.
Qed.

(** ** The description identifies the rooms *)

Lemma fragments_nl_inj (rs rs' : list Clona) :
  fragments rs +:+ nl = fragments rs' +:+ nl -> rs = rs'.
Proof.
  revert rs'. induction rs as [|r rs IH]; intros [|r' rs'] E.
  - reflexivity.
  - exfalso. cbn [fragments] in E. rewrite append_assoc in E.
    destruct r'; discriminate E.
  - exfalso. cbn [fragments] in E. rewrite append_assoc in E.
    destruct r; discriminate E.
  - cbn [fragments] in E. rewrite !append_assoc in E.
    destruct r, r'; try discriminate E;
      apply (inj (String.append _)) in E; now rewrite (IH rs' E).
Qed.

(** The two kinds of room print different labels, so the line written by
    [Castel::info] tells the rooms of the castle apart: two castles that
    are described by the same text hold the same kinds of room in the same
    order. *)
Theorem Castel_info_determines_rooms (w : World) (this this' : Castel)
    (rs rs' : list Clona) :
  holds_rooms w this rs ->
  holds_rooms w this' rs' ->
  Castel_info this w = Castel_info this' w ->
  rs = rs'.
Proof.
  intros H H'.
  rewrite (Castel_info_rooms w this rs H), (Castel_info_rooms w this' rs' H').
  intros [= E].
  apply (inj (String.append _)) in E. apply (inj (String.append _)) in E.
  now apply fragments_nl_inj.
Qed.

Lemma Castel_info_determines_rooms_witness :
  let w := mkWorld (<[2%positive := ORoom Temnita]> {[ 1%positive := ORoom Temnita ]})
             nullptr EmptyString (mkIstream [] false) in
  holds_rooms w (mkCastel [Some 1%positive]) [Temnita] /\
  holds_rooms w (mkCastel [Some 2%positive]) [Temnita] /\
  Castel_info (mkCastel [Some 1%positive]) w = Castel_info (mkCastel [Some 2%positive]) w /\
  [Temnita] = [Temnita].
Proof.
  intros w.
  assert (H1 : holds_rooms w (mkCastel [Some 1%positive]) [Temnita])
    by (repeat constructor).
  assert (H2 : holds_rooms w (mkCastel [Some 2%positive]) [Temnita])
    by (repeat constructor).
  assert (E : Castel_info (mkCastel [Some 1%positive]) w =
              Castel_info (mkCastel [Some 2%positive]) w) by reflexivity.
  split; [exact H1|]. split; [exact H2|]. split; [exact E|].
  exact (Castel_info_determines_rooms w _ _ _ _ H1 H2 E).
Defined.

(** ** A clone in the castle *)

Lemma Camera_clone_room (w : World) (p : unique_ptr) (c : Clona) :
  room_at w p = Some c -> Camera_clone p w = make_unique (ORoom c) w.
Proof.
  unfold room_at, Camera_clone, bind, deref.
  destruct p as [l|]; [|discriminate].
  destruct (heap w !! l) as [[c'|castel]|]; try discriminate.
  now intros [= ->].
Qed.

(** Cloning a live room and handing the clone to the [Rege] puts one
    more room of the same class at the end of the castle; the room that was
    cloned stays where it was, and the description then shows the former
    rooms followed by the label of the clone. *)
Theorem clone_into_castle (w : World) (rege : loc) (rs : list Clona)
    (p : unique_ptr) (c : Clona) :
  kingdom w rege rs ->
  room_at w p = Some c ->
  exists w',
    (camera <- Camera_clone p ;; Rege_adaugaCameraCastel rege camera) w
      = Ret tt w' /\
    kingdom w' rege (rs ++ [c]) /\
    room_at w' p = Some c /\
    Rege_infoCastel rege w' =
      Ret tt (written ("Castelul are: " +:+ fragments rs +:+ fragment c +:+ nl) w').
Proof.
  intros K Hp.
  destruct (adauga_kingdom w rege rs c K) as (w' & A & K' & _).
  exists w'. split; [|split; [exact K'|split]].
  - unfold bind in *. now rewrite (Camera_clone_room w p c Hp).
  - pose proof K as (_ & _ & castel & R & _).
    rewrite (adauga_world w rege castel c R) in A. injection A as <-.
    pose proof (fresh_unused w) as Hl.
    set (w1 := mkWorld (<[fresh (dom (heap w)) := ORoom c]> (heap w))
                 (instanta w) (cout w) (cin w)).
    assert (H1 : room_at w1 (Some rege) = None).
    { cbn. rewrite lookup_insert_ne by congruence. now rewrite R. }
    assert (H2 : room_at w1 p = Some c).
    { apply room_at_insert_other; [cbn; now rewrite Hl | exact Hp]. }
    exact (room_at_insert_other w1 rege _ p c _ _ _ H1 H2).
  - rewrite (infoCastel_kingdom w' rege _ K'), fragments_app. cbn [fragments].
    now rewrite append_nil_r, !append_assoc.
Qed.

Lemma clone_into_castle_witness :
  let w := mkWorld (<[2%positive := ORoom Temnita]>
                      {[ 1%positive := ORege (mkCastel [Some 2%positive]) ]})
             (Some 1%positive) EmptyString (mkIstream [] false) in
  kingdom w 1%positive [Temnita] /\
  room_at w (Some 2%positive) = Some Temnita /\
  exists w',
    (camera <- Camera_clone (Some 2%positive) ;;
     Rege_adaugaCameraCastel 1%positive camera) w = Ret tt w' /\
    Rege_infoCastel 1%positive w' =
      Ret tt (written ("Castelul are: temnita, temnita, " +:+ nl) w').
Proof.
  intros w.
  assert (K : kingdom w 1%positive [Temnita]).
  { split; [reflexivity|]. split.
    - intros l castel E. cbn in E.
      apply lookup_insert_Some in E as [[_ E]|[_ E]]; [discriminate|].
      now apply lookup_singleton_Some in E as [<- _].
    - exists (mkCastel [Some 2%positive]). split; [reflexivity|].
      repeat constructor. }
  assert (R : room_at w (Some 2%positive) = Some Temnita) by reflexivity.
  split; [exact K|]. split; [exact R|].
  destruct (clone_into_castle w 1%positive [Temnita] (Some 2%positive) Temnita K R)
    as (w' & E & _ & _ & I).
  exists w'. split; [exact E | exact I].
Defined.

(** ** Describing changes nothing *)

Lemma for_each_info_frame (ps : list unique_ptr) :
  forall w w', for_each_info ps w = Ret tt w' -> exists s, w' = written s w.
Proof.
  induction ps as [|p ps IH]; intros w w'.
  - cbn. intros [= <-]. exists EmptyString. now rewrite written_nil.
  - cbn [for_each_info]. unfold bind.
    destruct (room_at w p) as [c|] eqn:R.
    + rewrite (Clona_info_room _ _ _ R). intros E.
      destruct (IH _ _ E) as [s ->]. rewrite written_written. eauto.
    + now rewrite (Clona_info_no_room _ _ R).
Qed.

(** Whenever [Rege::infoCastel] returns, from any state whatever, all it
    has done is write text: the free store (and so the castle and its
    rooms), [Rege::instanta] and the input are what they were. *)
Theorem infoCastel_only_writes (w w' : World) (rege : loc) :
  Rege_infoCastel rege w = Ret tt w' ->
  exists s,
    w' = written s w /\
    heap w' = heap w /\ instanta w' = instanta w /\ cin w' = cin w /\
    castel_rooms w' = castel_rooms w.
Proof.
  unfold Rege_infoCastel, bind, deref.
  destruct (heap w !! rege) as [[c|castel]|]; try discriminate.
  unfold Castel_info, bind. rewrite cout_put_written.
  destruct (for_each_info (camere castel) (written "Castelul are: " w))
    as [[] w1|] eqn:F; [|discriminate].
  apply for_each_info_frame in F as [s ->].
  rewrite !cout_put_written, !written_written. intros [= <-].
  eexists. split; [reflexivity|]. repeat split.
Qed.

Lemma infoCastel_only_writes_witness :
  let w := mkWorld (<[2%positive := ORoom CameraTron]>
                      {[ 1%positive := ORege (mkCastel [Some 2%positive]) ]})
             (Some 1%positive) EmptyString (mkIstream [3; 4] false) in
  exists w' s,
    Rege_infoCastel 1%positive w = Ret tt w' /\
    w' = written s w /\ heap w' = heap w /\ cin w' = cin w.
Proof.
  intros w. eexists.
  assert (E : Rege_infoCastel 1%positive w = Ret tt _) by reflexivity.
  destruct (infoCastel_only_writes w _ 1%positive E) as (s & Hw & Hh & _ & Hc & _).
  exists s. split; [exact E|]. auto.
Defined.

(** ** At the end of the input *)

(** A pass that cannot read: [optiune] keeps its value and is acted on
    once more. *)
Lemma menu_iteration_stuck (w : World) (rege : loc) (rs : list Clona) (old : Z) :
  kingdom w rege rs ->
  failbit (cin w) = true \/ tokens (cin w) = [] ->
  exists w',
    menu_iteration rege old w = Ret old w' /\
    kingdom w' rege (rs ++ rooms_added old) /\
    failbit (cin w') = true.
Proof.
  intros K Hs. unfold menu_iteration, bind. rewrite print_menu_written.
  destruct (cin_get_int_stuck old (written menu_text w) Hs) as (i & Hf & ->).
  set (w1 := mkWorld _ _ _ _).
  assert (K1 : kingdom w1 rege rs) by (now apply (kingdom_frame w)).
  destruct (dispatch_kingdom w1 rege rs old K1) as (w' & D & K' & Hi & _).
  rewrite D. exists w'. split; [reflexivity|]. split; [exact K'|]. now rewrite Hi.
Qed.

Lemma menu_passes_stuck (k : nat) :
  forall (w : World) (rege : loc) (rs : list Clona) (old : Z),
    kingdom w rege rs ->
    old <> 4 ->
    failbit (cin w) = true \/ tokens (cin w) = [] ->
    exists w',
      menu_passes k rege old w = Ret old w' /\
      kingdom w' rege (rs ++ concat (replicate k (rooms_added old))).
Proof.
  induction k as [|k IH]; intros w rege rs old K Hold Hs.
  - exists w. cbn. rewrite app_nil_r. auto.
  - cbn [menu_passes]. destruct (Z.eqb_spec old 4); [contradiction|].
    destruct (menu_iteration_stuck w rege rs old K Hs) as (w1 & It & K1 & Hf).
    destruct (IH w1 rege _ old K1 Hold (or_introl Hf)) as (w' & P & K').
    exists w'. unfold bind. rewrite It. split; [exact P|].
    cbn [replicate concat]. now rewrite app_assoc.
Qed.

Lemma menu_passes_then_stuck (input : list Z) (k : nat) :
  forall (w : World) (rege : loc) (rs : list Clona) (old : Z),
    kingdom w rege rs ->
    old <> 4 ->
    (4 ∉ input) ->
    Forall is_int input ->
    cin w = mkIstream input false ->
    exists w',
      menu_passes (length input + k) rege old w
        = Ret (default old (last input)) w' /\
      kingdom w' rege
        (rs ++ flat_map rooms_added input ++
         concat (replicate k (rooms_added (default old (last input))))).
Proof.
  induction input as [|z input IH]; intros w rege rs old K Hold Hnot Hint Hi.
  - apply (menu_passes_stuck k w rege rs old K Hold). right. now rewrite Hi.
  - apply not_elem_of_cons in Hnot as [Hz Hnot].
    apply Forall_cons in Hint as [Hzi Hint].
    destruct (menu_iteration_read w rege rs old z input K Hi Hzi)
      as (w1 & It & K1 & Hi1 & _).
    destruct (IH w1 rege _ z K1 (not_eq_sym Hz) Hnot Hint Hi1) as (w' & P & K').
    assert (L : default old (last (z :: input)) = default z (last input)).
    { rewrite last_cons. now destruct (last input). }
    exists w'. rewrite L. split.
    + cbn [length Nat.add menu_passes].
      destruct (Z.eqb_spec old 4); [contradiction|].
      unfold bind. now rewrite It.
    + cbn [flat_map]. now rewrite <- !app_assoc in *.
Qed.

(** The result of [std::cin >> optiune] is never checked: once the input
    is used up without a 4, every further pass acts on the last choice read
    again.  After [k] such passes the castle holds the rooms asked for on
    the input followed by [k] times what the last choice adds. *)
Theorem end_of_input_repeats_last_choice (pre : list Z) (z : Z) (k : nat) :
  (4 ∉ pre ++ [z]) ->
  Forall is_int (pre ++ [z]) ->
  exists w,
    (r <- Rege_getInstance ;; menu_passes (length pre + 1 + k) r 0)
      (initial_world (pre ++ [z])) = Ret z w /\
    castel_rooms w =
      map Some (flat_map rooms_added (pre ++ [z]) ++
                concat (replicate k (rooms_added z))).
Proof.
  intros Hnot Hint.
  destruct (getInstance_realm _ _ (initial_realm (pre ++ [z])))
    as (rege & w1 & G & K & _ & Hi).
  assert (H0 : 0 <> 4) by lia.
  destruct (menu_passes_then_stuck (pre ++ [z]) k w1 rege [] 0 K H0 Hnot Hint Hi)
    as (w & P & K').
  rewrite last_snoc, length_app in P. rewrite last_snoc in K'. cbn in P, K'.
  exists w. split.
  - unfold bind. now rewrite G.
  - exact (kingdom_castel_rooms w rege _ K').
Qed.

Lemma end_of_input_repeats_last_choice_witness :
  (4 ∉ [2] ++ [1]) /\ Forall is_int ([2] ++ [1]) /\
  exists w,
    (r <- Rege_getInstance ;; menu_passes (length [2] + 1 + 3) r 0)
      (initial_world ([2] ++ [1])) = Ret 1 w /\
    castel_rooms w =
      [Some Temnita; Some CameraTron; Some CameraTron; Some CameraTron;
       Some CameraTron].
Proof.
  assert (Hnot : 4 ∉ [2] ++ [1]).
  { intros H. cbn in H. repeat (apply elem_of_cons in H as [H|H]; [lia|]).
    now apply elem_of_nil in H. }
  assert (Hint : Forall is_int ([2] ++ [1])).
  { repeat constructor; unfold INT_MIN, INT_MAX; lia. }
  split; [exact Hnot|]. split; [exact Hint|].
  exact (end_of_input_repeats_last_choice [2] 1 3 Hnot Hint).
Defined.

(** ** Determinism *)

(** The model above is the one with the allocator [first_unused]. *)
Lemma menu_loop_at_first_unused (fuel : nat) (rege : loc) (optiune : Z) (w : World) :
  menu_loop_at first_unused fuel rege optiune w = menu_loop fuel rege optiune w.
Proof.
  revert optiune w. induction fuel as [|fuel IH]; intros optiune w; [reflexivity|].
  cbn [menu_loop_at menu_loop]. destruct (optiune =? 4); [reflexivity|].
  change (menu_iteration_at first_unused rege optiune) with (menu_iteration rege optiune).
  unfold bind. destruct (menu_iteration rege optiune w); [apply IH | reflexivity].
Qed.

Lemma main_at_first_unused (fuel : nat) (w : World) :
  main_at first_unused fuel w = main fuel w.
Proof.
  unfold main_at, main.
  change (Rege_getInstance_at first_unused) with Rege_getInstance.
  unfold bind. destruct (Rege_getInstance w) as [rege w1|]; [|reflexivity].
  now rewrite menu_loop_at_first_unused.
Qed.

Section AnyAllocator.

Variable alloc : World -> loc.
Hypothesis alloc_unused : forall w, heap w !! alloc w = None.

Lemma getInstance_at_realm (w : World) (rs : list Clona) :
  realm w rs ->
  exists r w1,
    Rege_getInstance_at alloc w = Ret r w1 /\ kingdom w1 r rs /\
    cout w1 = cout w /\ cin w1 = cin w.
Proof.
  unfold realm. destruct (instanta w) as [r|] eqn:I.
  - intros K. exists r, w. split; [|auto].
    unfold Rege_getInstance_at, bind, get_instanta, ret.
    rewrite I. cbn. now rewrite I.
  - intros [N ->].
    exists (alloc w),
      (mkWorld (<[alloc w := ORege (mkCastel [])]> (heap w)) (Some (alloc w))
         (cout w) (cin w)).
    split.
    { unfold Rege_getInstance_at, bind, get_instanta. now rewrite I. }
    split; [|split; reflexivity].
    split; [reflexivity|]. cbn. split.
    + intros l castel H.
      destruct (decide (alloc w = l)) as [<-|Hne]; [reflexivity|].
      rewrite lookup_insert_ne in H by exact Hne. now apply N in H.
    + exists (mkCastel []). rewrite lookup_insert_eq.
      split; [reflexivity|]. constructor.
Qed.

Lemma adauga_at_kingdom (w : World) (rege : loc) (rs : list Clona) (c : Clona) :
  kingdom w rege rs ->
  exists w',
    (camera <- make_unique_at alloc (ORoom c) ;;
     Rege_adaugaCameraCastel rege camera) w = Ret tt w' /\
    kingdom w' rege (rs ++ [c]) /\ cout w' = cout w /\ cin w' = cin w.
Proof.
  intros (I & U & castel & R & H).
  pose proof (alloc_unused w) as Hl. set (l := alloc w) in *.
  assert (Hne : l <> rege) by congruence.
  set (w1 := mkWorld (<[l := ORoom c]> (heap w)) (instanta w) (cout w) (cin w)).
  set (castel' := Castel_adaugaCamera (Some l) castel).
  exists (mkWorld (<[rege := ORege castel']> (heap w1)) (instanta w1) (cout w1) (cin w1)).
  split.
  { unfold make_unique_at, new_at, ret, Rege_adaugaCameraCastel, deref, store, bind.
    fold l. cbn. rewrite lookup_insert_ne by exact Hne. now rewrite R. }
  split; [|split; reflexivity].
  split; [exact I|]. split.
  - intros l0 castel0 E. cbn in E.
    destruct (decide (rege = l0)) as [->|N0]; [reflexivity|].
    rewrite lookup_insert_ne in E by exact N0.
    destruct (decide (l = l0)) as [<-|N1].
    + rewrite lookup_insert_eq in E. discriminate.
    + rewrite lookup_insert_ne in E by exact N1. now apply U in E.
  - exists castel'. split; [cbn; now rewrite lookup_insert_eq|].
    apply holds_rooms_adaugaCamera.
    + eapply Forall2_impl; [exact H|]. intros p r Hp. cbn beta in Hp.
      apply room_at_insert_other.
      * cbn. rewrite lookup_insert_ne by exact Hne. now rewrite R.
      * apply room_at_insert_other; [cbn; now rewrite Hl | exact Hp].
    + cbn. rewrite lookup_insert_ne by congruence. now rewrite lookup_insert_eq.
Qed.

Lemma dispatch_at_kingdom (w : World) (rege : loc) (rs : list Clona) (optiune : Z) :
  kingdom w rege rs ->
  exists w',
    dispatch_at alloc rege optiune w = Ret tt w' /\
    kingdom w' rege (rs ++ rooms_added optiune) /\
    cin w' = cin w /\
    cout w' = cout w +:+ reply rs optiune.
Proof.
  intros K. unfold dispatch_at, rooms_added, reply.
  destruct (optiune =? ADD_CAMERA);
    [|destruct (optiune =? ADD_TEMNITA);
      [|rewrite app_nil_r; destruct (optiune =? DESC_CASTEL);
        [|destruct (optiune =? IESIRE)]]].
  - destruct (adauga_at_kingdom w rege rs CameraTron K) as (w' & E & K' & Ho & Hi).
    change (creareCamera_at alloc CAMERA_TRON)
      with (make_unique_at alloc (ORoom CameraTron)).
    unfold bind in *.
    destruct (make_unique_at alloc (ORoom CameraTron) w) as [camera w1|];
      [|discriminate].
    rewrite E. rewrite !cout_put_written, written_written.
    eexists. split; [reflexivity|].
    split; [now apply kingdom_written|]. cbn. now rewrite Hi, Ho.
  - destruct (adauga_at_kingdom w rege rs Temnita K) as (w' & E & K' & Ho & Hi).
    change (creareCamera_at alloc TEMNITA)
      with (make_unique_at alloc (ORoom Temnita)).
    unfold bind in *.
    destruct (make_unique_at alloc (ORoom Temnita) w) as [camera w1|];
      [|discriminate].
    rewrite E. rewrite !cout_put_written, written_written.
    eexists. split; [reflexivity|].
    split; [now apply kingdom_written|]. cbn. now rewrite Hi, Ho.
  - rewrite (infoCastel_kingdom w rege rs K).
    eexists. split; [reflexivity|]. split; [now apply kingdom_written|]. auto.
  - unfold bind. rewrite !cout_put_written, written_written.
    eexists. split; [reflexivity|]. split; [now apply kingdom_written|]. auto.
  - unfold bind. rewrite !cout_put_written, written_written.
    eexists. split; [reflexivity|]. split; [now apply kingdom_written|]. auto.
Qed.

(** What a pass does to the text and to the rooms depends on the input
    stream, on [optiune] and on the rooms, not on the addresses. *)
Lemma menu_iteration_at_kingdom (w : World) (rege : loc) (rs : list Clona)
    (old z : Z) (i : istream) (h : gmap loc object) (p : unique_ptr) (s : string) :
  kingdom w rege rs ->
  cin_get_int old (mkWorld h p s (cin w)) = Ret z (mkWorld h p s i) ->
  exists w',
    menu_iteration_at alloc rege old w = Ret z w' /\
    kingdom w' rege (rs ++ rooms_added z) /\
    cin w' = i /\
    cout w' = cout w +:+ menu_text +:+ reply rs z.
Proof.
  intros K C. unfold menu_iteration_at, bind. rewrite print_menu_written.
  assert (C' : cin_get_int old (written menu_text w) =
               Ret z (mkWorld (heap w) (instanta w) (cout w +:+ menu_text) i)).
  { revert C. unfold cin_get_int, written. cbn.
    destruct (failbit (cin w)); [now intros [= -> <-]|].
    destruct (tokens (cin w)) as [|t rest]; [now intros [= -> <-]|].
    destruct (t <? INT_MIN); [now intros [= <- <-]|].
    destruct (INT_MAX <? t); now intros [= <- <-]. }
  rewrite C'. set (w1 := mkWorld _ _ _ _).
  assert (K1 : kingdom w1 rege rs) by (now apply (kingdom_frame w)).
  destruct (dispatch_at_kingdom w1 rege rs z K1) as (w' & D & K' & Hi & Ho).
  rewrite D. exists w'. split; [reflexivity|]. split; [exact K'|].
  split; [exact Hi|]. rewrite Ho. cbn. now rewrite append_assoc.
Qed.

Lemma menu_loop_at_fuel (fuel fuel' : nat) (rege : loc) (optiune : Z)
    (w w' : World) :
  (fuel <= fuel')%nat ->
  menu_loop_at alloc fuel rege optiune w = Ret tt w' ->
  menu_loop_at alloc fuel' rege optiune w = Ret tt w'.
Proof.
  revert fuel' optiune w. induction fuel as [|fuel IH]; intros fuel' optiune w Hle.
  - cbn. destruct (Z.eqb_spec optiune 4) as [->|]; [|discriminate].
    destruct fuel'; cbn; auto.
  - destruct fuel' as [|fuel']; [lia|].
    cbn [menu_loop_at]. destruct (optiune =? 4); [auto|].
    unfold bind.
    destruct (menu_iteration_at alloc rege optiune w) as [z w1|]; [|discriminate].
    apply IH. lia.
Qed.

End AnyAllocator.

Lemma cin_get_int_any (old : Z) (c : istream) :
  exists z i, forall h p s,
    cin_get_int old (mkWorld h p s c) = Ret z (mkWorld h p s i).
Proof.
  destruct c as [ts f]. unfold cin_get_int. cbn.
  destruct f; [eauto|]. destruct ts as [|t rest]; [eauto|].
  destruct (t <? INT_MIN); [eauto|]. destruct (INT_MAX <? t); eauto.
Qed.

Section TwoRuns.

Variables alloc1 alloc2 : World -> loc.
Hypothesis alloc1_unused : forall w, heap w !! alloc1 w = None.
Hypothesis alloc2_unused : forall w, heap w !! alloc2 w = None.

Lemma menu_iteration_two_runs (w1 w2 : World) (r1 r2 : loc) (rs : list Clona)
    (old : Z) :
  kingdom w1 r1 rs -> kingdom w2 r2 rs ->
  cout w1 = cout w2 -> cin w1 = cin w2 ->
  exists z w1' w2',
    menu_iteration_at alloc1 r1 old w1 = Ret z w1' /\
    menu_iteration_at alloc2 r2 old w2 = Ret z w2' /\
    kingdom w1' r1 (rs ++ rooms_added z) /\
    kingdom w2' r2 (rs ++ rooms_added z) /\
    cout w1' = cout w2' /\ cin w1' = cin w2'.
Proof.
  intros K1 K2 Eo Ei.
  destruct (cin_get_int_any old (cin w1)) as (z & i & C).
  destruct (menu_iteration_at_kingdom alloc1 alloc1_unused w1 r1 rs old z i
              ∅ None EmptyString K1 (C _ _ _)) as (w1' & It1 & K1' & Hi1 & Ho1).
  rewrite Ei in C.
  destruct (menu_iteration_at_kingdom alloc2 alloc2_unused w2 r2 rs old z i
              ∅ None EmptyString K2 (C _ _ _)) as (w2' & It2 & K2' & Hi2 & Ho2).
  exists z, w1', w2'.
  split; [exact It1|]. split; [exact It2|]. split; [exact K1'|].
  split; [exact K2'|]. split; congruence.
Qed.

Lemma menu_passes_two_runs (n : nat) :
  forall (w1 w2 : World) (r1 r2 : loc) (rs : list Clona) (old : Z),
    kingdom w1 r1 rs -> kingdom w2 r2 rs ->
    cout w1 = cout w2 -> cin w1 = cin w2 ->
    exists z w1' w2' rs',
      menu_passes_at alloc1 n r1 old w1 = Ret z w1' /\
      menu_passes_at alloc2 n r2 old w2 = Ret z w2' /\
      kingdom w1' r1 rs' /\ kingdom w2' r2 rs' /\
      cout w1' = cout w2' /\ cin w1' = cin w2'.
Proof.
  induction n as [|n IH]; intros w1 w2 r1 r2 rs old K1 K2 Eo Ei.
  - exists old, w1, w2, rs. cbn. auto 7.
  - cbn [menu_passes_at]. destruct (old =? 4).
    + exists old, w1, w2, rs. cbn. auto 7.
    + destruct (menu_iteration_two_runs w1 w2 r1 r2 rs old K1 K2 Eo Ei)
        as (z & v1 & v2 & It1 & It2 & K1' & K2' & Eo' & Ei').
      unfold bind. rewrite It1, It2. exact (IH v1 v2 r1 r2 _ z K1' K2' Eo' Ei').
Qed.

Lemma menu_loop_two_runs (fuel : nat) :
  forall (w1 w2 : World) (r1 r2 : loc) (rs : list Clona) (old : Z),
    kingdom w1 r1 rs -> kingdom w2 r2 rs ->
    cout w1 = cout w2 -> cin w1 = cin w2 ->
    (menu_loop_at alloc1 fuel r1 old w1 = Fault OutOfFuel /\
     menu_loop_at alloc2 fuel r2 old w2 = Fault OutOfFuel) \/
    exists w1' w2' rs',
      menu_loop_at alloc1 fuel r1 old w1 = Ret tt w1' /\
      menu_loop_at alloc2 fuel r2 old w2 = Ret tt w2' /\
      kingdom w1' r1 rs' /\ kingdom w2' r2 rs' /\
      cout w1' = cout w2' /\ cin w1' = cin w2'.
Proof.
  induction fuel as [|fuel IH]; intros w1 w2 r1 r2 rs old K1 K2 Eo Ei;
    cbn [menu_loop_at]; destruct (old =? 4);
    try (right; exists w1, w2, rs; cbn; auto 7; fail);
    [left; split; reflexivity|].
  destruct (menu_iteration_two_runs w1 w2 r1 r2 rs old K1 K2 Eo Ei)
    as (z & v1 & v2 & It1 & It2 & K1' & K2' & Eo' & Ei').
  unfold bind. rewrite It1, It2. exact (IH v1 v2 r1 r2 _ z K1' K2' Eo' Ei').
Qed.

Lemma main_two_runs (input : list Z) (fuel : nat) :
  (main_at alloc1 fuel (initial_world input) = Fault OutOfFuel /\
   main_at alloc2 fuel (initial_world input) = Fault OutOfFuel) \/
  exists w1 w2,
    main_at alloc1 fuel (initial_world input) = Ret 0 w1 /\
    main_at alloc2 fuel (initial_world input) = Ret 0 w2 /\
    cout w1 = cout w2 /\ castel_rooms w1 = castel_rooms w2 /\ cin w1 = cin w2.
Proof.
  destruct (getInstance_at_realm alloc1 _ _ (initial_realm input))
    as (r1 & v1 & G1 & K1 & Ho1 & Hi1).
  destruct (getInstance_at_realm alloc2 _ _ (initial_realm input))
    as (r2 & v2 & G2 & K2 & Ho2 & Hi2).
  assert (Eo : cout v1 = cout v2) by congruence.
  assert (Ei : cin v1 = cin v2) by congruence.
  unfold main_at, bind. rewrite G1, G2.
  destruct (menu_loop_two_runs fuel v1 v2 r1 r2 [] 0 K1 K2 Eo Ei)
    as [[-> ->]|(w1 & w2 & rs & -> & -> & K1' & K2' & Eo' & Ei')].
  - left. split; reflexivity.
  - right. exists w1, w2. split; [reflexivity|]. split; [reflexivity|].
    split; [exact Eo'|]. split; [|exact Ei'].
    now rewrite (kingdom_castel_rooms w1 r1 rs K1'), (kingdom_castel_rooms w2 r2 rs K2').
Qed.

End TwoRuns.

Lemma main_at_fuel (alloc : World -> loc) (fuel fuel' : nat) (w w' : World)
    (status : Z) :
  (fuel <= fuel')%nat ->
  main_at alloc fuel w = Ret status w' ->
  main_at alloc fuel' w = Ret status w'.
Proof.
  intros Hle. unfold main_at, bind.
  destruct (Rege_getInstance_at alloc w) as [rege w1|]; [|discriminate].
  destruct (menu_loop_at alloc fuel rege 0 w1) as [[] w2|] eqn:E; [|discriminate].
  now rewrite (menu_loop_at_fuel alloc fuel fuel' rege 0 w1 w2 Hle E).
Qed.

(** C10: the one thing the program does not fix itself is where [new]
    places its objects.  Take two runs on the same input whose allocators
    choose unused addresses in any two ways.  After any number of passes of
    the menu loop both runs are defined and agree on [optiune], on all the
    text written so far, on the rooms of the castle and on the input left.
    With the same bound on the passes both are still in the loop or both
    have returned 0, and two runs that return, under whatever bounds, end
    with the same status, the same complete output and the same rooms. *)
Theorem main_deterministic_any_allocator (alloc1 alloc2 : World -> loc)
    (input : list Z) :
  (forall w, heap w !! alloc1 w = None) ->
  (forall w, heap w !! alloc2 w = None) ->
  (forall n,
      exists optiune w1 w2,
        (r <- Rege_getInstance_at alloc1 ;; menu_passes_at alloc1 n r 0)
          (initial_world input) = Ret optiune w1 /\
        (r <- Rege_getInstance_at alloc2 ;; menu_passes_at alloc2 n r 0)
          (initial_world input) = Ret optiune w2 /\
        cout w1 = cout w2 /\ castel_rooms w1 = castel_rooms w2 /\
        cin w1 = cin w2) /\
  (forall fuel,
      (main_at alloc1 fuel (initial_world input) = Fault OutOfFuel /\
       main_at alloc2 fuel (initial_world input) = Fault OutOfFuel) \/
      exists w1 w2,
        main_at alloc1 fuel (initial_world input) = Ret 0 w1 /\
        main_at alloc2 fuel (initial_world input) = Ret 0 w2 /\
        cout w1 = cout w2 /\ castel_rooms w1 = castel_rooms w2 /\
        cin w1 = cin w2) /\
  (forall fuel1 fuel2 status1 status2 w1 w2,
      main_at alloc1 fuel1 (initial_world input) = Ret status1 w1 ->
      main_at alloc2 fuel2 (initial_world input) = Ret status2 w2 ->
      status1 = status2 /\ cout w1 = cout w2 /\
      castel_rooms w1 = castel_rooms w2).
Proof.
  intros U1 U2. split; [|split].
  - intros n.
    destruct (getInstance_at_realm alloc1 _ _ (initial_realm input))
      as (r1 & v1 & G1 & K1 & Ho1 & Hi1).
    destruct (getInstance_at_realm alloc2 _ _ (initial_realm input))
      as (r2 & v2 & G2 & K2 & Ho2 & Hi2).
    assert (Eo : cout v1 = cout v2) by congruence.
    assert (Ei : cin v1 = cin v2) by congruence.
    destruct (menu_passes_two_runs alloc1 alloc2 U1 U2 n v1 v2 r1 r2 [] 0 K1 K2 Eo Ei)
      as (z & w1 & w2 & rs & P1 & P2 & K1' & K2' & Eo' & Ei').
    exists z, w1, w2. unfold bind. rewrite G1, G2.
    split; [exact P1|]. split; [exact P2|]. split; [exact Eo'|].
    split; [|exact Ei'].
    now rewrite (kingdom_castel_rooms w1 r1 rs K1'), (kingdom_castel_rooms w2 r2 rs K2').
  - intros fuel. exact (main_two_runs alloc1 alloc2 U1 U2 input fuel).
  - intros fuel1 fuel2 status1 status2 w1 w2 E1 E2.
    apply (main_at_fuel alloc1 fuel1 (Nat.max fuel1 fuel2)) in E1; [|lia].
    apply (main_at_fuel alloc2 fuel2 (Nat.max fuel1 fuel2)) in E2; [|lia].
    destruct (main_two_runs alloc1 alloc2 U1 U2 input (Nat.max fuel1 fuel2))
      as [[F1 _]|(v1 & v2 & R1 & R2 & Eo & Er & _)].
    + rewrite F1 in E1. discriminate.
    + rewrite R1 in E1. rewrite R2 in E2.
      injection E1 as <- <-. injection E2 as <- <-. auto.
Qed.

Lemma main_deterministic_any_allocator_witness :
  let alloc1 := first_unused in
  let alloc2 := fun w : World => fresh ({[ 7%positive ]} ∪ dom (heap w)) in
  (forall w, heap w !! alloc1 w = None) /\
  (forall w, heap w !! alloc2 w = None) /\
  exists w1 w2,
    main_at alloc1 3 (initial_world [2; 3; 4]) = Ret 0 w1 /\
    main_at alloc2 5 (initial_world [2; 3; 4]) = Ret 0 w2 /\
    instanta w1 <> instanta w2 /\
    cout w1 = cout w2 /\
    castel_rooms w1 = castel_rooms w2.
Proof.
  intros alloc1 alloc2.
  assert (U1 : forall w, heap w !! alloc1 w = None) by exact fresh_unused.
  assert (U2 : forall w, heap w !! alloc2 w = None).
  { intros w. apply not_elem_of_dom. intros H.
    apply (is_fresh ({[ 7%positive ]} ∪ dom (heap w))).
    apply elem_of_union_r. exact H. }
  split; [exact U1|]. split; [exact U2|].
  eexists _, _.
  assert (E1 : main_at alloc1 3 (initial_world [2; 3; 4]) = Ret 0 _)
    by (vm_compute; reflexivity).
  assert (E2 : main_at alloc2 5 (initial_world [2; 3; 4]) = Ret 0 _)
    by (vm_compute; reflexivity).
  split; [exact E1|]. split; [exact E2|].
  split; [cbn; discriminate|].
  destruct (proj2 (proj2 (main_deterministic_any_allocator alloc1 alloc2 [2; 3; 4]
                            U1 U2)) 3%nat 5%nat 0 0 _ _ E1 E2) as (_ & Ho & Hr).
  split; [exact Ho | exact Hr].
Defined.
